(** * The real-time event channel of the review dashboard

    A shallow embedding of [frontend/src/services/websocket.ts]: the
    [WebSocketService] class (connection lifecycle, bounded reconnection,
    typed dispatch of inbound frames, guarded sends), together with the
    small part of the browser it runs against (socket objects, timeouts).

    The service is single threaded: every method and every callback runs to
    completion on the event loop.  A [World] therefore holds the fields of
    the one service instance next to the socket objects and the pending
    timeouts the instance has created, and each method of the class is a
    function from worlds to worlds. *)

From Stdlib Require Import ZArith Lia.
From stdpp Require Import base list strings.

Open Scope Z_scope.
Open Scope string_scope.
Open Scope list_scope.

(** ** JavaScript values *)

(** The values that travel through the channel ([payload: any], the result
    of [JSON.parse]).  The channel reads only the [type] and [payload]
    properties of a value and never looks inside a number, which is carried
    here as an integer. *)
#[local] Unset Elimination Schemes.
Inductive JSValue : Type :=
  | JUndefined
  | JNull
  | JBool (b : bool)
  | JNum (n : Z)
  | JStr (s : string)
  | JArr (items : list JSValue)
  | JObj (props : list (string * JSValue)).
#[local] Set Elimination Schemes.

(** [obj[k]] on the property list of an object; an absent property reads as
    [undefined]. *)
Fixpoint own_prop (props : list (string * JSValue)) (k : string) : JSValue :=
  match props with
  | [] => JUndefined
  | (k', v) :: rest => if String.eqb k' k then v else own_prop rest k
  end.

(** [v.k] for the two names the channel reads, [type] and [payload].
    Reading a property of [null] or [undefined] throws a [TypeError]
    ([None]); primitives and arrays have no such property. *)
Definition get_prop (v : JSValue) (k : string) : option JSValue :=
  match v with
  | JUndefined | JNull => None
  | JObj props => Some (own_prop props k)
  | JBool _ | JNum _ | JStr _ | JArr _ => Some JUndefined
  end.

(** [v === 'lit'] for a string literal. *)
Definition strict_eq_str (v : JSValue) (lit : string) : bool :=
  match v with
  | JStr s => String.eqb s lit
  | _ => false
  end.

(** [interface WebSocketMessage]. *)
Record WebSocketMessage : Type := mkMessage {
  type : string;
  payload : JSValue
}.

(** The object literal [{ type, payload }] as a value. *)
Definition message_value (m : WebSocketMessage) : JSValue :=
  JObj [("type", JStr (type m)); ("payload", payload m)].

(** A text frame handed to [ws.send]: the text [JSON.stringify(message)].
    [JSON.stringify] and [JSON.parse] belong to the platform; an outbound
    frame is recorded by the message it serialises, an inbound frame by what
    [JSON.parse] makes of its text ([None]: it throws a [SyntaxError]). *)
Inductive TextFrame : Type :=
  | JSON_stringify (m : WebSocketMessage).

Record MessageEvent : Type := mkMessageEvent {
  data_parsed : option JSValue
}.

(** ** Emissions *)

Inductive JSError : Type :=
  | Error (message : string)          (* new Error(message) *)
  | TransportError (sock : nat)       (* the event passed to ws.onerror *)
  | ConstructorException.             (* what new WebSocket(url) threw *)

Inductive EmitArg : Type :=
  | NoArg
  | ErrArg (e : JSError)
  | ValArg (v : JSValue).

(** One call of [this.emit(name, arg)].  What the registered listeners do
    with it is outside the channel; the emissions of a run are recorded in
    order. *)
Record Emission : Type := mkEmission {
  ev_name : string;
  ev_arg : EmitArg
}.

(** ** Sockets and timeouts *)

Inductive ReadyState : Type := CONNECTING | OPEN | CLOSING | CLOSED.

Definition ReadyState_eqb (a b : ReadyState) : bool :=
  match a, b with
  | CONNECTING, CONNECTING | OPEN, OPEN | CLOSING, CLOSING | CLOSED, CLOSED => true
  | _, _ => false
  end.

(** A socket object.  The four callback properties hold either nothing or
    the arrow function [setupEventListeners] assigns to them ([true]).  Each
    of these functions closes over [this] only, so a socket that the service
    no longer references still drives the service through them. *)
Record WebSocket : Type := mkWebSocket {
  ws_url : string;
  readyState : ReadyState;
  onopen : bool;
  onclose : bool;
  onerror : bool;
  onmessage : bool;
  sent : list TextFrame
}.

(** [new WebSocket(url)]: connecting, no callbacks yet. *)
Definition new_WebSocket (u : string) : WebSocket :=
  mkWebSocket u CONNECTING false false false false [].

Definition set_readyState (r : ReadyState) (s : WebSocket) : WebSocket :=
  mkWebSocket (ws_url s) r (onopen s) (onclose s) (onerror s) (onmessage s) (sent s).

Definition install_listeners (s : WebSocket) : WebSocket :=
  mkWebSocket (ws_url s) (readyState s) true true true true (sent s).

Definition push_frame (f : TextFrame) (s : WebSocket) : WebSocket :=
  mkWebSocket (ws_url s) (readyState s) (onopen s) (onclose s) (onerror s)
    (onmessage s) (sent s ++ [f]).

(** [socket.close()]: a connecting or open socket starts closing, the close
    event follows later; otherwise nothing happens. *)
Definition ws_close (s : WebSocket) : WebSocket :=
  match readyState s with
  | CONNECTING | OPEN => set_readyState CLOSING s
  | CLOSING | CLOSED => s
  end.

(** A socket is live until its close event has been delivered. *)
Definition live (s : WebSocket) : bool := negb (ReadyState_eqb (readyState s) CLOSED).

(** ** The world *)

Record World : Type := mkWorld {
  (* fields of the WebSocketService instance *)
  ws : option nat;                  (* index of the socket in [sockets] *)
  reconnectAttempts : Z;
  reconnectInterval : Z;
  reconnectCount : Z;
  reconnectTimeoutId : option nat;
  url : string;
  (* the environment *)
  sockets : list WebSocket;         (* every socket object created so far *)
  timers : list (nat * Z);          (* pending timeouts: handle and delay *)
  next_timer : nat;                 (* the handle setTimeout returns next *)
  emitted : list Emission;          (* the calls of emit, oldest first *)
  ctor_throws : bool;               (* new WebSocket(url) rejects the url *)
  error_listeners : nat             (* listeners subscribed to 'error' *)
}.

Definition set_ws (v : option nat) (w : World) : World :=
  mkWorld v (reconnectAttempts w) (reconnectInterval w) (reconnectCount w)
    (reconnectTimeoutId w) (url w) (sockets w) (timers w) (next_timer w)
    (emitted w) (ctor_throws w) (error_listeners w).

Definition set_reconnectCount (v : Z) (w : World) : World :=
  mkWorld (ws w) (reconnectAttempts w) (reconnectInterval w) v
    (reconnectTimeoutId w) (url w) (sockets w) (timers w) (next_timer w)
    (emitted w) (ctor_throws w) (error_listeners w).

Definition set_reconnectTimeoutId (v : option nat) (w : World) : World :=
  mkWorld (ws w) (reconnectAttempts w) (reconnectInterval w) (reconnectCount w)
    v (url w) (sockets w) (timers w) (next_timer w)
    (emitted w) (ctor_throws w) (error_listeners w).

Definition set_sockets (v : list WebSocket) (w : World) : World :=
  mkWorld (ws w) (reconnectAttempts w) (reconnectInterval w) (reconnectCount w)
    (reconnectTimeoutId w) (url w) v (timers w) (next_timer w)
    (emitted w) (ctor_throws w) (error_listeners w).

Definition set_timers (v : list (nat * Z)) (w : World) : World :=
  mkWorld (ws w) (reconnectAttempts w) (reconnectInterval w) (reconnectCount w)
    (reconnectTimeoutId w) (url w) (sockets w) v (next_timer w)
    (emitted w) (ctor_throws w) (error_listeners w).

Definition set_next_timer (v : nat) (w : World) : World :=
  mkWorld (ws w) (reconnectAttempts w) (reconnectInterval w) (reconnectCount w)
    (reconnectTimeoutId w) (url w) (sockets w) (timers w) v
    (emitted w) (ctor_throws w) (error_listeners w).

Definition set_emitted (v : list Emission) (w : World) : World :=
  mkWorld (ws w) (reconnectAttempts w) (reconnectInterval w) (reconnectCount w)
    (reconnectTimeoutId w) (url w) (sockets w) (timers w) (next_timer w)
    v (ctor_throws w) (error_listeners w).

Definition set_error_listeners (v : nat) (w : World) : World :=
  mkWorld (ws w) (reconnectAttempts w) (reconnectInterval w) (reconnectCount w)
    (reconnectTimeoutId w) (url w) (sockets w) (timers w) (next_timer w)
    (emitted w) (ctor_throws w) v.

(** [setTimeout(callback, delay)]; the only callback the service ever passes
    is the retry closure of [attemptReconnect] (see [retry_callback]).
    Returns the new handle. *)
Definition setTimeout (delay : Z) (w : World) : nat * World :=
  (next_timer w,
   set_next_timer (S (next_timer w)) (set_timers (timers w ++ [(next_timer w, delay)]) w)).

(** [clearTimeout(handle)]: a handle that is not pending is ignored. *)
Definition clearTimeout (h : nat) (w : World) : World :=
  set_timers (filter (λ t, negb (Nat.eqb (fst t) h)) (timers w)) w.

Definition pending (h : nat) (w : World) : bool :=
  existsb (λ t, Nat.eqb (fst t) h) (timers w).

(** ** The class *)

(** [interface WebSocketServiceOptions]. *)
Record WebSocketServiceOptions : Type := mkOptions {
  opt_url : string;
  opt_reconnectAttempts : option Z;
  opt_reconnectInterval : option Z
}.

(** [x || d] for an optional number: [undefined] and [0] are falsy. *)
Definition or_default (x : option Z) (d : Z) : Z :=
  match x with
  | None => d
  | Some n => if Z.eqb n 0 then d else n
  end.

(** The constructor; [throws] fixes how the browser treats the address.  A
    new emitter has no listeners. *)
Definition new_WebSocketService (options : WebSocketServiceOptions) (throws : bool) : World :=
  mkWorld None
    (or_default (opt_reconnectAttempts options) 5)
    (or_default (opt_reconnectInterval options) 3000)
    0 None (opt_url options)
    [] [] 1%nat [] throws 0%nat.

(** [this.emit(name, arg)], inherited from [EventEmitter]: the call is
    recorded.  What the listeners do with it is outside the channel, with
    one exception that reaches back into it: an [error] event that nobody
    listens to makes the emitter throw (see [emit_throws]), and then the
    statements that follow the call in the calling method do not run. *)
Definition emit (name : string) (arg : EmitArg) (w : World) : World :=
  set_emitted (emitted w ++ [mkEmission name arg]) w.

(** Whether [this.emit(name, ...)] throws instead of returning.  In every
    method but [connect] an [emit] of [error] is the last statement, so that
    the exception changes nothing in the service; it leaves the method, or
    the callback, as an uncaught exception. *)
Definition emit_throws (name : string) (w : World) : bool :=
  String.eqb name "error" && Nat.eqb (error_listeners w) 0.

(** [this.ws?.readyState === WebSocket.OPEN]. *)
Definition ws_is_open (w : World) : bool :=
  match ws w with
  | None => false
  | Some i =>
      match sockets w !! i with
      | Some s => ReadyState_eqb (readyState s) OPEN
      | None => false
      end
  end.

Definition setupEventListeners (w : World) : World :=
  match ws w with
  | None => w
  | Some i => set_sockets (alter install_listeners i (sockets w)) w
  end.

Definition attemptReconnect (w : World) : World :=
  if Z.ltb (reconnectCount w) (reconnectAttempts w) then
    let (h, w') := setTimeout (reconnectInterval w) w in
    set_reconnectTimeoutId (Some h) w'
  else
    emit "error" (ErrArg (Error "Maximum reconnection attempts reached")) w.

(** [connect()].  In the [catch] block [attemptReconnect()] follows the
    [emit]: it runs only if the [emit] returns. *)
Definition connect (w : World) : World :=
  if ws_is_open w then w
  else if ctor_throws w then
    let w' := emit "error" (ErrArg ConstructorException) w in
    if emit_throws "error" w then w' else attemptReconnect w'
  else
    setupEventListeners
      (set_ws (Some (length (sockets w)))
         (set_sockets (sockets w ++ [new_WebSocket (url w)]) w)).

(** The closure [attemptReconnect] hands to [setTimeout]. *)
Definition retry_callback (w : World) : World :=
  connect (set_reconnectCount (reconnectCount w + 1) w).

(** A timeout handle is never falsy (handles start at 1), so the test
    [if (this.reconnectTimeoutId)] asks whether a handle was ever recorded. *)
Definition disconnect (w : World) : World :=
  let w1 :=
    match reconnectTimeoutId w with
    | Some h => clearTimeout h w
    | None => w
    end in
  match ws w1 with
  | Some i => set_ws None (set_sockets (alter ws_close i (sockets w1)) w1)
  | None => w1
  end.

Definition send (ty : string) (p : JSValue) (w : World) : World :=
  if ws_is_open w then
    match ws w with
    | Some i =>
        set_sockets (alter (push_frame (JSON_stringify (mkMessage ty p))) i (sockets w)) w
    | None => w
    end
  else
    emit "error" (ErrArg (Error "WebSocket is not connected")) w.

(** The convenience senders. *)
Definition subscribeToPR (prId : Z) : World → World :=
  send "subscribe_pr" (JObj [("prId", JNum prId)]).

Definition unsubscribeFromPR (prId : Z) : World → World :=
  send "unsubscribe_pr" (JObj [("prId", JNum prId)]).

Definition sendComment (prId : Z) (comment : string) (lineNumber : option Z) : World → World :=
  send "new_comment"
    (JObj [("prId", JNum prId); ("comment", JStr comment);
           ("lineNumber", from_option JNum JUndefined lineNumber)]).

Definition markSuggestionStatus (suggestionId : string) (accepted : bool) : World → World :=
  send "suggestion_status"
    (JObj [("suggestionId", JStr suggestionId);
           ("status", JStr (if accepted then "accepted" else "rejected"))]).

Definition requestAnalysis (prId : Z) : World → World :=
  send "request_analysis" (JObj [("prId", JNum prId)]).

(** [handleMessage(message)]; [None] when evaluating [message.type] throws. *)
Definition handleMessage (message : JSValue) (w : World) : option World :=
  match get_prop message "type" with
  | None => None
  | Some t =>
      let p := default JUndefined (get_prop message "payload") in
      if strict_eq_str t "pr_update" then Some (emit "prUpdate" (ValArg p) w)
      else if strict_eq_str t "new_suggestion" then Some (emit "newSuggestion" (ValArg p) w)
      else if strict_eq_str t "new_comment" then Some (emit "newComment" (ValArg p) w)
      else if strict_eq_str t "suggestion_status_change" then
        Some (emit "suggestionStatusChange" (ValArg p) w)
      else Some (emit "message" (ValArg message) w)
  end.

(** The bodies of the four socket callbacks. *)
Definition on_open (w : World) : World :=
  set_reconnectCount 0 (emit "connected" NoArg w).

Definition on_close (w : World) : World :=
  attemptReconnect (emit "disconnected" NoArg w).

Definition on_error (sock : nat) (w : World) : World :=
  emit "error" (ErrArg (TransportError sock)) w.

Definition on_message (event : MessageEvent) (w : World) : World :=
  let failed := emit "error" (ErrArg (Error "Failed to parse WebSocket message")) w in
  match data_parsed event with
  | None => failed
  | Some message =>
      match handleMessage message w with
      | Some w' => w'
      | None => failed
      end
  end.

(** ** The event loop *)

(** What can happen to the service: a call of one of its public methods, an
    event of one of the sockets it created, or the expiry of a timeout.  Of
    the subscription calls the class inherits, the two that decide whether
    an [error] event is listened to are actions as well:
    [on('error', listener)], and [off('error', listener)] for a listener
    that is subscribed (with none subscribed, [off] changes nothing). *)
Inductive Action : Type :=
  | Call_connect
  | Call_disconnect
  | Call_send (ty : string) (p : JSValue)
  | Call_on_error
  | Call_off_error
  | Ev_open (sock : nat)
  | Ev_close (sock : nat)
  | Ev_error (sock : nat)
  | Ev_message (sock : nat) (event : MessageEvent)
  | Ev_timeout (h : nat).

(** Calling the callback of a socket property, if one is installed. *)
Definition fire (installed : bool) (callback : World → World) (w : World) : World :=
  if installed then callback w else w.

Definition update_socket (i : nat) (s : WebSocket) (w : World) : World :=
  set_sockets (<[i := s]> (sockets w)) w.

(** One turn of the event loop; [None] when the browser cannot deliver the
    event: a socket opens once, out of CONNECTING; it closes once, and is
    silent afterwards; frames arrive on an open socket; a timeout expires
    only while it is pending, and is then no longer pending. *)
Definition step (a : Action) (w : World) : option World :=
  match a with
  | Call_connect => Some (connect w)
  | Call_disconnect => Some (disconnect w)
  | Call_send ty p => Some (send ty p w)
  | Call_on_error => Some (set_error_listeners (S (error_listeners w)) w)
  | Call_off_error => Some (set_error_listeners (pred (error_listeners w)) w)
  | Ev_open i =>
      match sockets w !! i with
      | Some s =>
          if ReadyState_eqb (readyState s) CONNECTING
          then Some (fire (onopen s) on_open (update_socket i (set_readyState OPEN s) w))
          else None
      | None => None
      end
  | Ev_close i =>
      match sockets w !! i with
      | Some s =>
          if live s
          then Some (fire (onclose s) on_close (update_socket i (set_readyState CLOSED s) w))
          else None
      | None => None
      end
  | Ev_error i =>
      match sockets w !! i with
      | Some s => if live s then Some (fire (onerror s) (on_error i) w) else None
      | None => None
      end
  | Ev_message i event =>
      match sockets w !! i with
      | Some s =>
          if ReadyState_eqb (readyState s) OPEN
          then Some (fire (onmessage s) (on_message event) w)
          else None
      | None => None
      end
  | Ev_timeout h =>
      if pending h w then Some (retry_callback (clearTimeout h w)) else None
  end.

Fixpoint run (acts : list Action) (w : World) : option World :=
  match acts with
  | [] => Some w
  | a :: rest =>
      match step a w with
      | Some w' => run rest w'
      | None => None
      end
  end.

(** ** Observations *)

(** The states of the specification's state machine, read off the fields:
    the channel is as connected as the socket it currently references. *)
Inductive ChannelState : Type := Disconnected | Connecting | Open.

Definition channel_state (w : World) : ChannelState :=
  match ws w with
  | None => Disconnected
  | Some i =>
      match sockets w !! i with
      | Some s =>
          match readyState s with
          | CONNECTING => Connecting
          | OPEN => Open
          | CLOSING | CLOSED => Disconnected
          end
      | None => Disconnected
      end
  end.

Definition live_sockets (w : World) : nat := length (filter (λ s, live s = true) (sockets w)).

Definition pending_timers (w : World) : nat := length (timers w).

(** How often an event name occurs among the emissions. *)
Definition count_emitted (name : string) (l : list Emission) : nat :=
  length (filter (λ e, ev_name e = name) l).

(** The error the service emits when the retry budget is spent. *)
Definition ReconnectExhausted : Emission :=
  mkEmission "error" (ErrArg (Error "Maximum reconnection attempts reached")).

(** How often the exhaustion error occurs among the emissions. *)
Definition is_exhausted (e : Emission) : bool :=
  match ev_arg e with
  | ErrArg (Error m) =>
      String.eqb (ev_name e) "error" && String.eqb m "Maximum reconnection attempts reached"
  | _ => false
  end.

Definition count_exhausted (l : list Emission) : nat :=
  length (filter (λ e, is_exhausted e = true) l).

(** The error [send] emits when the socket is not open. *)
Definition SendWhileClosed : Emission :=
  mkEmission "error" (ErrArg (Error "WebSocket is not connected")).

(** The error the data callback emits when decoding or dispatch throws. *)
Definition DecodeFailed : Emission :=
  mkEmission "error" (ErrArg (Error "Failed to parse WebSocket message")).

(** Two worlds that differ at most in what has been emitted so far. *)
Definition same_but_log (w1 w2 : World) : Prop :=
  set_emitted [] w1 = set_emitted [] w2.

(** The actions that are events of the browser, not calls of the program. *)
Definition is_event (a : Action) : bool :=
  match a with
  | Call_connect | Call_disconnect | Call_send _ _ | Call_on_error | Call_off_error => false
  | Ev_open _ | Ev_close _ | Ev_error _ | Ev_message _ _ | Ev_timeout _ => true
  end.

(** The instance the module exports, [getInstance({ url })], with the
    default address. *)
Definition wsService : World :=
  new_WebSocketService (mkOptions "ws://localhost:8000/ws" None None) false.

(** The exported service after [connect()] and a completed handshake. *)
Definition wsService_open : World :=
  default wsService (run [Call_connect; Ev_open 0%nat] wsService).

(** ** Runs without further calls of connect and disconnect *)

(** The events the browser delivers by itself, and the calls that neither
    open nor close anything: [send] and the subscription calls. *)
Definition automatic (a : Action) : bool :=
  match a with
  | Call_connect | Call_disconnect => false
  | Call_send _ _ | Call_on_error | Call_off_error
  | Ev_open _ | Ev_close _ | Ev_error _ | Ev_message _ _ | Ev_timeout _ => true
  end.

(** The worlds reached from a new service, with [k] listeners subscribed to
    [error], by one [connect()] and, after it, socket events, timeouts,
    sends and subscription calls only. *)
Inductive reachable_auto : World → Prop :=
  | auto_start options throws k :
      reachable_auto
        (connect (set_error_listeners k (new_WebSocketService options throws)))
  | auto_step a w w' :
      reachable_auto w → automatic a = true → step a w = Some w' → reachable_auto w'.

(** The worlds reached by any run at all. *)
Inductive reachable : World → Prop :=
  | reach_new options throws : reachable (new_WebSocketService options throws)
  | reach_step a w w' : reachable w → step a w = Some w' → reachable w'.





(** A socket as [connect()] leaves it: made for the configured address,
    with the four callbacks installed. *)
Definition wired_socket (u : string) (s : WebSocket) : Prop :=
  ws_url s = u ∧ onopen s = true ∧ onclose s = true ∧ onerror s = true ∧
  onmessage s = true.

Definition wired (w : World) : Prop := Forall (wired_socket (url w)) (sockets w).

(** ** Runs in which every socket fails *)

(** Socket [first] closes and the retry it causes, timeout [first + 1],
    expires; then the same for the next socket; [k] times in all. *)
Fixpoint failures (k first : nat) : list Action :=
  match k with
  | O => []
  | S k' => Ev_close first :: Ev_timeout (S first) :: failures k' (S first)
  end.




(** ** The table of the typed dispatcher, as the specification lists it *)

Definition dispatch_table : list (string * string) :=
  [("pr_update", "prUpdate");
   ("new_suggestion", "newSuggestion");
   ("new_comment", "newComment");
   ("suggestion_status_change", "suggestionStatusChange")].

Fixpoint table_lookup (t : list (string * string)) (k : string) : option string :=
  match t with
  | [] => None
  | (k', v) :: rest => if String.eqb k k' then Some v else table_lookup rest k
  end.

(** The emission the specification prescribes for a decoded envelope. *)
Definition prescribed_emission (m : WebSocketMessage) : Emission :=
  match table_lookup dispatch_table (type m) with
  | Some name => mkEmission name (ValArg (payload m))
  | None => mkEmission "message" (ValArg (message_value m))
  end.


(** ** The subscriber registry *)

(** Modelled from the spec: the Subscriber Registry and the subscription
    API ([on], [off], delivery of an emission to the handlers).  The class
    inherits them from the [EventEmitter] of the [events] package, whose
    code is not in the repository.  The registry maps an event name to the
    ordered list of its handlers; [on] registers at the end; [off] removes
    one registration of the handler (the latest one, where a handler was
    registered twice); an emission takes a snapshot of the list and then
    iterates over the snapshot. *)
Definition Handler : Type := nat.

Definition Registry : Type := string → list Handler.

Definition no_listeners : Registry := λ _, [].

Definition listeners (r : Registry) (e : string) : list Handler := r e.

Definition update_listeners (e : string) (l : list Handler) (r : Registry) : Registry :=
  λ e', if String.eqb e e' then l else r e'.

Fixpoint remove_first (h : Handler) (l : list Handler) : list Handler :=
  match l with
  | [] => []
  | x :: rest => if Nat.eqb x h then rest else x :: remove_first h rest
  end.

Definition remove_latest (h : Handler) (l : list Handler) : list Handler :=
  reverse (remove_first h (reverse l)).

Definition on (e : string) (h : Handler) (r : Registry) : Registry :=
  update_listeners e (listeners r e ++ [h]) r.

Definition off (e : string) (h : Handler) (r : Registry) : Registry :=
  update_listeners e (remove_latest h (listeners r e)) r.

(** What a handler may do to the registry while it runs. *)
Inductive RegistryCall : Type :=
  | On (e : string) (h : Handler)
  | Off (e : string) (h : Handler).

Definition do_call (c : RegistryCall) (r : Registry) : Registry :=
  match c with
  | On e h => on e h r
  | Off e h => off e h r
  end.

Definition do_calls (cs : list RegistryCall) (r : Registry) : Registry :=
  fold_left (λ acc c, do_call c acc) cs r.

(** Delivery to a snapshot: each handler of the snapshot is invoked in turn
    and its calls are applied to the registry.  [body h r] is what handler
    [h] does when it runs and finds the registry [r].  The result is the
    registry afterwards and the handlers invoked, in order. *)
Fixpoint deliver (body : Handler → Registry → list RegistryCall)
    (snapshot : list Handler) (r : Registry) : Registry * list Handler :=
  match snapshot with
  | [] => (r, [])
  | h :: rest =>
      let (r', invoked) := deliver body rest (do_calls (body h r) r) in
      (r', h :: invoked)
  end.

Definition emit_to_listeners (body : Handler → Registry → list RegistryCall)
    (e : string) (r : Registry) : Registry * list Handler :=
  deliver body (listeners r e) r.

(** A script of registrations, removals and emissions, run from a given
    registry; the result lists, for each emission, the handlers invoked. *)
Inductive RegistryOp : Type :=
  | Op_call (c : RegistryCall)
  | Op_emit (e : string).

Fixpoint run_script (body : Handler → Registry → list RegistryCall)
    (ops : list RegistryOp) (r : Registry) : Registry * list (list Handler) :=
  match ops with
  | [] => (r, [])
  | Op_call c :: rest => run_script body rest (do_call c r)
  | Op_emit e :: rest =>
      let (r1, invoked) := emit_to_listeners body e r in
      let (r2, logs) := run_script body rest r1 in
      (r2, invoked :: logs)
  end.

(** How often a handler is registered in a list of handlers, or invoked
    in a list of invocations. *)
Definition registrations (h : Handler) (l : list Handler) : nat :=
  length (filter (λ x, x = h) l).

(** ** The rest of the module, and its caller *)

(** [WebSocketService.getInstance(options)].  The static field [instance]
    is [None] until the first call; afterwards it holds the one instance,
    in whatever state that instance is by then. *)
Definition getInstance (options : WebSocketServiceOptions) (throws : bool)
    (instance : option World) : World :=
  match instance with
  | Some w => w
  | None => new_WebSocketService options throws
  end.

(** The listener [main.tsx] registers for [visibilitychange]; [visible] is
    [document.visibilityState === 'visible']. *)
Definition on_visibilitychange (visible : bool) (w : World) : World :=
  if visible then connect w else w.

(** What the constructor fixes. *)
Definition configuration (w : World) : string * Z * Z :=
  (url w, reconnectAttempts w, reconnectInterval w).

(** Every pending timeout was armed with the retry interval. *)
Definition fixed_delay (w : World) : Prop :=
  Forall (λ t, snd t = reconnectInterval w) (timers w).

(** The attempt counter is within the budget, and a retry is pending only
    while budget is left. *)
Definition counter_in_budget (w : World) : Prop :=
  (0 ≤ reconnectCount w)%Z ∧
  (reconnectCount w ≤ Z.max 0 (reconnectAttempts w))%Z ∧
  (timers w ≠ [] → reconnectCount w < reconnectAttempts w).

(** A sequence of [send] calls, first to last. *)
Definition send_all (ms : list WebSocketMessage) (w : World) : World :=
  fold_left (λ v m, send (type m) (payload m) v) ms w.

Definition append_frames (fs : list TextFrame) (s : WebSocket) : WebSocket :=
  mkWebSocket (ws_url s) (readyState s) (onopen s) (onclose s) (onerror s)
    (onmessage s) (sent s ++ fs).

(** All the frames written so far, over all sockets. *)
Definition frames_written (w : World) : nat :=
  sum_list_with (λ s, length (sent s)) (sockets w).

Definition is_send (a : Action) : bool :=
  match a with
  | Call_send _ _ => true
  | _ => false
  end.

Definition is_open_event (a : Action) : bool :=
  match a with
  | Ev_open _ => true
  | _ => false
  end.

Definition is_close_event (a : Action) : bool :=
  match a with
  | Ev_close _ => true
  | _ => false
  end.

(** The actions that run [connect()]: the call itself, and the expiry of a
    retry timer, whose callback calls it. *)
Definition runs_connect (a : Action) : bool :=
  match a with
  | Call_connect | Ev_timeout _ => true
  | _ => false
  end.

Definition count_actions (f : Action → bool) (acts : list Action) : nat :=
  length (filter (λ a, f a = true) acts).

(** ** Runs in which the constructor rejects the address *)

(** Timeouts [first], [first + 1], ... expire, [k] of them. *)
Fixpoint expiries (k first : nat) : list Action :=
  match k with
  | O => []
  | S k' => Ev_timeout first :: expiries k' (S first)
  end.

Definition ConstructorFailed : Emission :=
  mkEmission "error" (ErrArg ConstructorException).

(** The world after [ls + 1] subscriptions to [error], [connect()] and [j]
    expired retries, each of which threw again, while budget is left. *)
Definition after_throws (budget delay : Z) (u : string) (ls j : nat) : World :=
  mkWorld None budget delay (Z.of_nat j) (Some (S j)) u
    [] [(S j, delay)] (S (S j))
    (replicate (S j) ConstructorFailed) true (S ls).

(** * Properties *)

(** ** Record plumbing *)

Lemma ReadyState_eqb_eq (a b : ReadyState) : ReadyState_eqb a b = true ↔ a = b.
Proof. by destruct a, b. Qed.

Lemma alter_last {A} (f : A → A) (l : list A) (x : A) :
  alter f (length l) (l ++ [x]) = l ++ [f x].
Proof.
  replace (length l) with (length l + 0)%nat by lia.
  by rewrite alter_app_r.
Qed.

Lemma ws_is_open_spec (w : World) :
  ws_is_open w = true ↔
  ∃ i s, ws w = Some i ∧ sockets w !! i = Some s ∧ readyState s = OPEN.
Proof.
  unfold ws_is_open. split.
  - destruct (ws w) as [i|]; [|done].
    destruct (sockets w !! i) as [s|] eqn:Hs; [|done].
    intros H. exists i, s. by apply ReadyState_eqb_eq in H.
  - intros (i & s & -> & -> & ->). done.
Qed.

(** ** Configuration *)

(** C10.  An option of [0] for the attempt budget or for the retry interval
    is treated as absent: the service is built with 5 attempts, respectively
    3000 ms, and whatever the options are, neither field of a new service
    is [0]. *)
Theorem zero_options_fall_back_to_defaults :
  ∀ (u : string) (a i : option Z) (throws : bool) (options : WebSocketServiceOptions),
    reconnectAttempts (new_WebSocketService (mkOptions u (Some 0) i) throws) = 5 ∧
    reconnectInterval (new_WebSocketService (mkOptions u a (Some 0)) throws) = 3000 ∧
    new_WebSocketService (mkOptions u (Some 0) (Some 0)) throws
      = new_WebSocketService (mkOptions u None None) throws ∧
    reconnectAttempts (new_WebSocketService options throws) ≠ 0 ∧
    reconnectInterval (new_WebSocketService options throws) ≠ 0.
Proof.
  intros u a i throws [u' a' i']. repeat split; simpl.
  - destruct a' as [n|]; simpl; [|done].
    destruct (Z.eqb_spec n 0); done.
  - destruct i' as [n|]; simpl; [|done].
    destruct (Z.eqb_spec n 0); done.
Qed.

(** ** connect *)

Lemma connect_open (w : World) : ws_is_open w = true → connect w = w.
Proof. unfold connect. by intros ->. Qed.

Lemma connect_fresh (w : World) :
  ws_is_open w = false → ctor_throws w = false →
  connect w =
    set_ws (Some (length (sockets w)))
      (set_sockets (sockets w ++ [install_listeners (new_WebSocket (url w))]) w).
Proof.
  unfold connect. intros -> ->.
  unfold setupEventListeners. simpl. by rewrite alter_last.
Qed.

Lemma emit_throws_error (w : World) :
  emit_throws "error" w = Nat.eqb (error_listeners w) 0.
Proof. reflexivity. Qed.

(** With a listener for [error], the exception of the constructor ends in
    the reconnection path. *)
Lemma connect_throws (w : World) :
  ws_is_open w = false → ctor_throws w = true → error_listeners w ≠ 0%nat →
  connect w = attemptReconnect (emit "error" (ErrArg ConstructorException) w).
Proof.
  unfold connect. intros -> -> Hl. rewrite emit_throws_error.
  by rewrite (proj2 (Nat.eqb_neq _ _) Hl).
Qed.

(** Without one, the [emit] throws in its turn and [connect()] ends there. *)
Lemma connect_unhandled (w : World) :
  ws_is_open w = false → ctor_throws w = true → error_listeners w = 0%nat →
  connect w = emit "error" (ErrArg ConstructorException) w.
Proof.
  unfold connect. intros -> -> Hl. rewrite emit_throws_error. by rewrite Hl.
Qed.

Lemma connect_throws_cases (w : World) :
  ws_is_open w = false → ctor_throws w = true →
  connect w = attemptReconnect (emit "error" (ErrArg ConstructorException) w) ∨
  connect w = emit "error" (ErrArg ConstructorException) w.
Proof.
  intros Ho Hc. destruct (Nat.eq_dec (error_listeners w) 0%nat) as [Hl|Hl].
  - right. by apply connect_unhandled.
  - left. by apply connect_throws.
Qed.

(** C7.  While the referenced socket is open, [connect()] changes nothing,
    so calling it twice in succession leaves the world, and with it the one
    physical socket, as it was.  Otherwise, when the constructor accepts the
    address, it creates exactly one socket for the configured url, makes it
    the referenced one, installs the four callbacks on it and returns while
    the socket is still connecting; no event is emitted and no timeout is
    touched.  When the constructor throws, no socket is created and the
    exception is emitted as an [error]; the reconnection path follows if
    that [emit] returns, and nothing follows if it throws. *)
Theorem connect_idempotent_when_open (w : World) :
  (ws_is_open w = true →
     connect w = w ∧ connect (connect w) = w ∧
     run [Call_connect; Call_connect] w = Some w ∧
     length (sockets (connect (connect w))) = length (sockets w)) ∧
  (ws_is_open w = false → ctor_throws w = false →
     let w' := connect w in
     sockets w' =
       sockets w ++ [mkWebSocket (url w) CONNECTING true true true true []] ∧
     ws w' = Some (length (sockets w)) ∧
     channel_state w' = Connecting ∧
     emitted w' = emitted w ∧ timers w' = timers w ∧
     reconnectCount w' = reconnectCount w) ∧
  (ws_is_open w = false → ctor_throws w = true →
     let w' := connect w in
     sockets w' = sockets w ∧ ws w' = ws w ∧
     (error_listeners w ≠ 0%nat →
        w' = attemptReconnect (emit "error" (ErrArg ConstructorException) w)) ∧
     (error_listeners w = 0%nat →
        w' = set_emitted (emitted w ++ [mkEmission "error" (ErrArg ConstructorException)]) w ∧
        timers w' = timers w ∧ reconnectTimeoutId w' = reconnectTimeoutId w)).
Proof.
  split; [|split].
  - intros Ho. simpl. rewrite !(connect_open w Ho). done.
  - intros Ho Hc. simpl. rewrite (connect_fresh w Ho Hc).
    repeat split; try done.
    unfold channel_state. simpl.
    by rewrite list_lookup_middle.
  - intros Ho Hc. cbv zeta. split; [|split; [|split]].
    + destruct (connect_throws_cases w Ho Hc) as [-> | ->]; [|done].
      unfold attemptReconnect. by destruct (Z.ltb _ _).
    + destruct (connect_throws_cases w Ho Hc) as [-> | ->]; [|done].
      unfold attemptReconnect. by destruct (Z.ltb _ _).
    + intros Hl. by apply connect_throws.
    + intros Hl. by rewrite (connect_unhandled w Ho Hc Hl).
Qed.

(** The scenario of the specification: two calls in succession on an open
    channel, one physical socket. *)
Example connect_twice_one_socket :
  option_map (λ w, length (sockets w))
    (run [Call_connect; Ev_open 0%nat; Call_connect; Call_connect] wsService) = Some 1%nat.
Proof. reflexivity. Qed.

Lemma connect_idempotent_when_open_witness :
  (ws_is_open wsService_open = true ∧
   connect (connect wsService_open) = wsService_open ∧
   length (sockets wsService_open) = 1%nat ∧
   length (sockets (connect (connect wsService_open))) = length (sockets wsService_open)) ∧
  (ws_is_open (connect wsService) = false ∧ ctor_throws (connect wsService) = false ∧
   ws (connect (connect wsService)) = Some 1%nat ∧
   channel_state (connect (connect wsService)) = Connecting) ∧
  (let w := new_WebSocketService (mkOptions "ws:/bad" None None) true in
   ws_is_open w = false ∧ ctor_throws w = true ∧ error_listeners w = 0%nat ∧
   sockets (connect w) = [] ∧ timers (connect w) = timers w).
Proof.
  split; [|split].
  - pose proof (proj1 (connect_idempotent_when_open wsService_open) eq_refl)
      as (_ & H2 & _ & H4).
    split; [reflexivity|]. split; [exact H2|]. split; [reflexivity|exact H4].
  - pose proof (proj1 (proj2 (connect_idempotent_when_open (connect wsService)))
                  eq_refl eq_refl) as (_ & H2 & H3 & _).
    split; [reflexivity|]. split; [reflexivity|]. exact (conj H2 H3).
  - cbv zeta.
    pose proof (proj2 (proj2 (connect_idempotent_when_open
                  (new_WebSocketService (mkOptions "ws:/bad" None None) true)))
                  eq_refl eq_refl) as (H1 & _ & _ & H4).
    split; [reflexivity|]. split; [reflexivity|]. split; [reflexivity|].
    split; [exact H1|]. exact (proj1 (proj2 (H4 eq_refl))).
Defined.

(** ** The emission log is write-only *)

Lemma same_but_log_emit (name : string) (arg : EmitArg) (w : World) :
  same_but_log (emit name arg w) w.
Proof. done. Qed.

Lemma same_but_log_sockets (w1 w2 : World) :
  same_but_log w1 w2 → sockets w1 = sockets w2.
Proof. intros H. by injection H. Qed.

Ltac same_worlds :=
  match goal with
  | H : same_but_log ?w1 ?w2 |- _ =>
      destruct w1, w2; unfold same_but_log in H; simpl in H;
      injection H as -> -> -> -> -> -> -> -> -> -> ->
  end.

Lemma attemptReconnect_log (w1 w2 : World) :
  same_but_log w1 w2 → same_but_log (attemptReconnect w1) (attemptReconnect w2).
Proof.
  intros H. same_worlds. unfold attemptReconnect; simpl.
  by destruct (Z.ltb _ _).
Qed.

Lemma connect_log (w1 w2 : World) :
  same_but_log w1 w2 → same_but_log (connect w1) (connect w2).
Proof.
  intros H. unfold connect.
  assert (ws_is_open w1 = ws_is_open w2) as ->
    by (same_worlds; done).
  assert (ctor_throws w1 = ctor_throws w2) as ->
    by (same_worlds; done).
  destruct (ws_is_open w2); [done|].
  destruct (ctor_throws w2).
  - cbv zeta.
    assert (emit_throws "error" w1 = emit_throws "error" w2) as ->
      by (same_worlds; done).
    destruct (emit_throws "error" w2); [same_worlds; done|].
    apply attemptReconnect_log. same_worlds. done.
  - same_worlds. done.
Qed.

Lemma on_message_log (event : MessageEvent) (w1 w2 : World) :
  same_but_log w1 w2 → same_but_log (on_message event w1) (on_message event w2).
Proof.
  intros H. unfold on_message, handleMessage.
  destruct (data_parsed event) as [m|]; [|same_worlds; done].
  destruct (get_prop m "type") as [t|]; [|same_worlds; done].
  repeat (match goal with |- context [if ?b then _ else _] => destruct b end);
    same_worlds; done.
Qed.

Lemma on_open_log (w1 w2 : World) :
  same_but_log w1 w2 → same_but_log (on_open w1) (on_open w2).
Proof. intros H. same_worlds. done. Qed.

Lemma on_close_log (w1 w2 : World) :
  same_but_log w1 w2 → same_but_log (on_close w1) (on_close w2).
Proof. intros H. apply attemptReconnect_log. same_worlds. done. Qed.

Lemma on_error_log (i : nat) (w1 w2 : World) :
  same_but_log w1 w2 → same_but_log (on_error i w1) (on_error i w2).
Proof. intros H. same_worlds. done. Qed.

Lemma fire_log (b : bool) (f : World → World) (w1 w2 : World) :
  (∀ v1 v2, same_but_log v1 v2 → same_but_log (f v1) (f v2)) →
  same_but_log w1 w2 → same_but_log (fire b f w1) (fire b f w2).
Proof. intros Hf H. destruct b; simpl; auto. Qed.

Lemma update_socket_log (i : nat) (s : WebSocket) (w1 w2 : World) :
  same_but_log w1 w2 → same_but_log (update_socket i s w1) (update_socket i s w2).
Proof. intros H. same_worlds. done. Qed.

Lemma step_log (a : Action) (w1 w2 : World) :
  same_but_log w1 w2 →
  match step a w1, step a w2 with
  | Some w1', Some w2' => same_but_log w1' w2'
  | None, None => True
  | _, _ => False
  end.
Proof.
  intros H. destruct a; simpl.
  - by apply connect_log.
  - same_worlds. unfold disconnect; simpl.
    destruct reconnectTimeoutId1; simpl; by destruct ws1.
  - same_worlds. unfold send, ws_is_open; simpl.
    destruct ws1 as [i|]; [|done].
    destruct (sockets1 !! i) as [s|]; [|done].
    by destruct (ReadyState_eqb _ _).
  - same_worlds. done.
  - same_worlds. done.
  - rewrite (same_but_log_sockets _ _ H).
    destruct (sockets w2 !! sock) as [s|]; [|done].
    destruct (ReadyState_eqb _ _); [|done].
    apply fire_log; [apply on_open_log|by apply update_socket_log].
  - rewrite (same_but_log_sockets _ _ H).
    destruct (sockets w2 !! sock) as [s|]; [|done].
    destruct (live s); [|done].
    apply fire_log; [apply on_close_log|by apply update_socket_log].
  - rewrite (same_but_log_sockets _ _ H).
    destruct (sockets w2 !! sock) as [s|]; [|done].
    destruct (live s); [|done].
    apply fire_log; [apply on_error_log|done].
  - rewrite (same_but_log_sockets _ _ H).
    destruct (sockets w2 !! sock) as [s|]; [|done].
    destruct (ReadyState_eqb _ _); [|done].
    apply fire_log; [apply on_message_log|done].
  - assert (pending h w1 = pending h w2) as -> by (same_worlds; done).
    destruct (pending h w2); [|done].
    unfold retry_callback. apply connect_log. same_worlds. done.
Qed.

Lemma run_log (acts : list Action) (w1 w2 : World) :
  same_but_log w1 w2 →
  match run acts w1, run acts w2 with
  | Some w1', Some w2' => same_but_log w1' w2'
  | None, None => True
  | _, _ => False
  end.
Proof.
  revert w1 w2. induction acts as [|a acts IH]; intros w1 w2 H; simpl; [done|].
  pose proof (step_log a w1 w2 H) as Hs.
  destruct (step a w1) as [w1'|], (step a w2) as [w2'|]; try done.
  by apply IH.
Qed.

(** ** send *)

Lemma alter_at {A} (f : A → A) (l : list A) (i : nat) (x : A) :
  l !! i = Some x → alter f i l = <[i := f x]> l.
Proof.
  intros H. rewrite list_insert_alter.
  apply list_alter_ext; [|done].
  intros y Hy. congruence.
Qed.

Lemma send_when_open (ty : string) (p : JSValue) (w : World) :
  ws_is_open w = true →
  ∃ i s, ws w = Some i ∧ sockets w !! i = Some s ∧ readyState s = OPEN ∧
    send ty p w = update_socket i (push_frame (JSON_stringify (mkMessage ty p)) s) w.
Proof.
  intros Ho. destruct (proj1 (ws_is_open_spec w) Ho) as (i & s & Hws & Hs & Hr).
  exists i, s. repeat split; try done.
  unfold send. rewrite Ho, Hws. unfold update_socket.
  by rewrite (alter_at _ _ _ _ Hs).
Qed.

Lemma send_when_closed (ty : string) (p : JSValue) (w : World) :
  ws_is_open w = false → send ty p w = set_emitted (emitted w ++ [SendWhileClosed]) w.
Proof. intros Ho. unfold send. by rewrite Ho. Qed.

(** C4.  When the referenced socket is not open (or there is none),
    [send(type, payload)] emits exactly one [error] event and changes
    nothing else: no socket receives a frame, and since the world holds no
    record of the message, every later run writes exactly the frames it
    would have written without the call.  When the socket is open, the
    frame [JSON.stringify({ type, payload })] is appended to the frames
    written to that socket; the socket is otherwise as it was, no other
    socket changes, and nothing is emitted. *)
Theorem send_guarded (ty : string) (p : JSValue) (w : World) :
  (ws_is_open w = false →
     emitted (send ty p w) = emitted w ++ [SendWhileClosed] ∧
     same_but_log (send ty p w) w ∧
     sockets (send ty p w) = sockets w ∧
     ∀ acts, option_map sockets (run acts (send ty p w))
             = option_map sockets (run acts w)) ∧
  (ws_is_open w = true →
     ∃ i s, ws w = Some i ∧ sockets w !! i = Some s ∧ readyState s = OPEN ∧
       option_map sent (sockets (send ty p w) !! i)
         = Some (sent s ++ [JSON_stringify (mkMessage ty p)]) ∧
       sockets (send ty p w) =
         <[i := mkWebSocket (ws_url s) OPEN (onopen s) (onclose s) (onerror s)
                  (onmessage s) (sent s ++ [JSON_stringify (mkMessage ty p)])]>
           (sockets w) ∧
       emitted (send ty p w) = emitted w ∧
       timers (send ty p w) = timers w ∧
       ws (send ty p w) = ws w).
Proof.
  split.
  - intros Ho. rewrite (send_when_closed ty p w Ho).
    split; [done|]. split; [done|]. split; [done|].
    intros acts.
    pose proof (run_log acts _ _
      (same_but_log_emit "error" (ErrArg (Error "WebSocket is not connected")) w)) as H.
    change (set_emitted (emitted w ++ [SendWhileClosed]) w)
      with (emit "error" (ErrArg (Error "WebSocket is not connected")) w).
    destruct (run acts (emit _ _ w)) as [w1|], (run acts w) as [w2|]; try done.
    simpl. f_equal. by apply same_but_log_sockets.
  - intros Ho. destruct (send_when_open ty p w Ho) as (i & s & Hws & Hs & Hr & ->).
    exists i, s. split; [done|]. split; [done|]. split; [done|].
    unfold update_socket, push_frame. cbn [sockets set_sockets].
    rewrite Hr. split; [|done].
    rewrite list_lookup_insert_eq by (by eapply lookup_lt_Some). done.
Qed.

(** The scenario of the specification: [send('subscribe_pr', {prId: 3})] on
    a service that was never connected. *)
Example send_while_disconnected :
  let w := send "subscribe_pr" (JObj [("prId", JNum 3)]) wsService in
  emitted w = [SendWhileClosed] ∧ sockets w = [].
Proof. split; reflexivity. Qed.

Lemma send_guarded_witness :
  let m := mkMessage "request_analysis" (JObj [("prId", JNum 7)]) in
  (ws_is_open wsService = false ∧
   emitted (send "subscribe_pr" (JObj [("prId", JNum 3)]) wsService) = [SendWhileClosed] ∧
   sockets (send "subscribe_pr" (JObj [("prId", JNum 3)]) wsService) = []) ∧
  (ws_is_open wsService_open = true ∧
   option_map sent (sockets wsService_open !! 0%nat) = Some [] ∧
   option_map sent (sockets (send (type m) (payload m) wsService_open) !! 0%nat)
     = Some [JSON_stringify m] ∧
   option_map sent
     (sockets (send (type m) (payload m) (send (type m) (payload m) wsService_open))
        !! 0%nat)
     = Some [JSON_stringify m; JSON_stringify m]).
Proof.
  cbv zeta. split.
  - pose proof (proj1 (send_guarded "subscribe_pr" (JObj [("prId", JNum 3)]) wsService)
                  eq_refl) as (H1 & _ & H3 & _).
    split; [reflexivity|]. exact (conj H1 H3).
  - split; [reflexivity|]. split; [reflexivity|].
    destruct (proj2 (send_guarded "request_analysis" (JObj [("prId", JNum 7)])
                       wsService_open) eq_refl)
      as (i & s & Hws & Hs & _ & Hsent & _).
    vm_compute in Hws. injection Hws as <-.
    vm_compute in Hs. injection Hs as <-.
    split; [exact Hsent|].
    destruct (proj2 (send_guarded "request_analysis" (JObj [("prId", JNum 7)])
                       (send "request_analysis" (JObj [("prId", JNum 7)]) wsService_open))
                eq_refl)
      as (i & s & Hws & Hs & _ & Hsent2 & _).
    vm_compute in Hws. injection Hws as <-.
    vm_compute in Hs. injection Hs as <-.
    exact Hsent2.
Defined.

(** ** Inbound frames *)

Lemma dispatch_table_unfold (k : string) :
  table_lookup dispatch_table k =
    if String.eqb k "pr_update" then Some "prUpdate"
    else if String.eqb k "new_suggestion" then Some "newSuggestion"
    else if String.eqb k "new_comment" then Some "newComment"
    else if String.eqb k "suggestion_status_change" then Some "suggestionStatusChange"
    else None.
Proof. reflexivity. Qed.

Lemma envelope_type (m : WebSocketMessage) :
  get_prop (message_value m) "type" = Some (JStr (type m)).
Proof. reflexivity. Qed.

Lemma envelope_payload (m : WebSocketMessage) :
  get_prop (message_value m) "payload" = Some (payload m).
Proof. reflexivity. Qed.

Lemma handleMessage_envelope (m : WebSocketMessage) (w : World) :
  handleMessage (message_value m) w =
    Some (set_emitted (emitted w ++ [prescribed_emission m]) w).
Proof.
  unfold handleMessage, prescribed_emission.
  rewrite envelope_type, envelope_payload, dispatch_table_unfold.
  unfold strict_eq_str, default.
  destruct (String.eqb (type m) "pr_update"); [done|].
  destruct (String.eqb (type m) "new_suggestion"); [done|].
  destruct (String.eqb (type m) "new_comment"); [done|].
  destruct (String.eqb (type m) "suggestion_status_change"); done.
Qed.

(** The same for any decoded value whose [type] is a string, whatever else
    it carries: the payload is whatever its [payload] property reads as. *)
Lemma handleMessage_string_type (v : JSValue) (ty : string) (w : World) :
  get_prop v "type" = Some (JStr ty) →
  handleMessage v w =
    Some (emit (default "message" (table_lookup dispatch_table ty))
            (ValArg (match table_lookup dispatch_table ty with
                     | Some _ => default JUndefined (get_prop v "payload")
                     | None => v
                     end)) w).
Proof.
  intros Ht. unfold handleMessage. rewrite Ht, dispatch_table_unfold.
  unfold strict_eq_str.
  destruct (String.eqb ty "pr_update"); [done|].
  destruct (String.eqb ty "new_suggestion"); [done|].
  destruct (String.eqb ty "new_comment"); [done|].
  destruct (String.eqb ty "suggestion_status_change"); done.
Qed.

(** C5.  A frame that decodes to an envelope causes exactly one emission,
    the one the dispatch table prescribes: for the four listed types the
    payload under the semantic event name (and no [message] event), for any
    other type the whole envelope under [message].  The same holds of any
    decoded value whose [type] is a string. *)
Theorem inbound_envelope_one_emission (m : WebSocketMessage) (w : World) :
  let w' := on_message (mkMessageEvent (Some (message_value m))) w in
  emitted w' = emitted w ++ [prescribed_emission m] ∧
  same_but_log w' w ∧
  (type m = "pr_update" → prescribed_emission m = mkEmission "prUpdate" (ValArg (payload m))) ∧
  (type m = "new_suggestion" →
     prescribed_emission m = mkEmission "newSuggestion" (ValArg (payload m))) ∧
  (type m = "new_comment" →
     prescribed_emission m = mkEmission "newComment" (ValArg (payload m))) ∧
  (type m = "suggestion_status_change" →
     prescribed_emission m = mkEmission "suggestionStatusChange" (ValArg (payload m))) ∧
  (type m ∉ ["pr_update"; "new_suggestion"; "new_comment"; "suggestion_status_change"] →
     prescribed_emission m = mkEmission "message" (ValArg (message_value m))) ∧
  (∀ v ty, get_prop v "type" = Some (JStr ty) →
     ∃ e, on_message (mkMessageEvent (Some v)) w = set_emitted (emitted w ++ [e]) w ∧
          ev_name e = default "message" (table_lookup dispatch_table ty)).
Proof.
  cbv zeta. unfold on_message. cbn [data_parsed].
  rewrite handleMessage_envelope.
  split; [done|]. split; [done|].
  unfold prescribed_emission. rewrite dispatch_table_unfold.
  repeat split; try (by intros ->).
  - intros Hn.
    repeat (match goal with
            | |- context [String.eqb ?a ?b] =>
                let E := fresh "E" in
                destruct (String.eqb_spec a b) as [E|E];
                [exfalso; apply Hn; rewrite E, !elem_of_cons; tauto|]
            end).
    done.
  - intros v ty Ht. rewrite (handleMessage_string_type v ty w Ht).
    eexists. split; reflexivity.
Qed.

(** The scenario of the specification: the frame
    [{"type":"new_comment","payload":{"prId":7,"comment":"hi"}}] on an open
    channel gives one [newComment] emission and no [message] emission. *)
Example new_comment_frame :
  let p := JObj [("prId", JNum 7); ("comment", JStr "hi")] in
  let frame := mkMessageEvent (Some (message_value (mkMessage "new_comment" p))) in
  option_map emitted (run [Call_connect; Ev_open 0%nat; Ev_message 0%nat frame] wsService)
  = Some [mkEmission "connected" NoArg; mkEmission "newComment" (ValArg p)].
Proof. reflexivity. Qed.

Lemma inbound_envelope_one_emission_witness :
  let m := mkMessage "new_comment" (JObj [("prId", JNum 7); ("comment", JStr "hi")]) in
  type m = "new_comment" ∧
  prescribed_emission m = mkEmission "newComment" (ValArg (payload m)).
Proof.
  split; [reflexivity|].
  exact (proj1 (proj2 (proj2 (proj2 (proj2
    (inbound_envelope_one_emission
       (mkMessage "new_comment" (JObj [("prId", JNum 7); ("comment", JStr "hi")]))
       wsService))))) eq_refl).
Defined.




(** The scenario of the specification: the text [{not valid}] on an open
    channel. *)
Example not_valid_frame :
  option_map (λ w, (emitted w, channel_state w))
    (run [Call_connect; Ev_open 0%nat; Ev_message 0%nat (mkMessageEvent None)] wsService)
  = Some ([mkEmission "connected" NoArg; DecodeFailed], Open).
Proof. reflexivity. Qed.

(** ** Timeouts *)

Lemma pending_scheduled (w : World) (d : Z) :
  pending (next_timer w) (snd (setTimeout d w)) = true.
Proof.
  unfold pending, setTimeout. simpl.
  rewrite existsb_app. simpl. rewrite Nat.eqb_refl.
  by rewrite orb_true_r.
Qed.

Lemma clearTimeout_not_pending (h : nat) (w : World) :
  pending h (clearTimeout h w) = false.
Proof.
  unfold pending, clearTimeout. simpl.
  induction (timers w) as [|[h' d] l IH]; [done|].
  rewrite filter_cons. simpl.
  destruct (Nat.eqb h' h) eqn:E; simpl; [exact IH|].
  by rewrite E, IH.
Qed.

Lemma clearTimeout_twice (h : nat) (w : World) :
  clearTimeout h (clearTimeout h w) = clearTimeout h w.
Proof.
  destruct w as [? ? ? ? ? ? ? l ? ? ? ?]. unfold clearTimeout, set_timers. simpl. f_equal.
  induction l as [|[h' d] l IH]; [done|].
  rewrite filter_cons. simpl.
  destruct (Nat.eqb h' h) eqn:E; simpl; [exact IH|].
  rewrite filter_cons. simpl. rewrite E. simpl. by f_equal.
Qed.

Lemma clearTimeout_shrinks (h : nat) (w : World) :
  pending h w = true →
  (length (timers (clearTimeout h w)) < length (timers w))%nat.
Proof.
  unfold pending, clearTimeout. simpl.
  induction (timers w) as [|[h' d] l IH]; [done|].
  simpl. rewrite filter_cons. simpl.
  destruct (Nat.eqb h' h) eqn:E; simpl.
  - intros _.
    pose proof (length_filter (λ t : nat * Z, negb (fst t =? h)%nat) l). lia.
  - intros H. specialize (IH H). lia.
Qed.

(** ** Sockets that are closed *)

Lemma no_live_sockets (w : World) (i : nat) (s : WebSocket) :
  live_sockets w = 0%nat → sockets w !! i = Some s → readyState s = CLOSED.
Proof.
  unfold live_sockets. intros H Hs.
  apply nil_length_inv in H.
  destruct (ReadyState_eqb (readyState s) CLOSED) eqn:E.
  - by apply ReadyState_eqb_eq.
  - exfalso. eapply (filter_nil_not_elem_of _ _ s H).
    + unfold live. by rewrite E.
    + by eapply list_elem_of_lookup_2.
Qed.


(** In a world without live socket and without pending timeout the browser
    has nothing to deliver. *)
Lemma quiescent (w : World) (a : Action) :
  live_sockets w = 0%nat → timers w = [] → is_event a = true → step a w = None.
Proof.
  intros Hl Ht Ha. destruct a; try done; simpl.
  - destruct (sockets w !! sock) as [s|] eqn:Hs; [|done].
    by rewrite (no_live_sockets w sock s Hl Hs).
  - destruct (sockets w !! sock) as [s|] eqn:Hs; [|done].
    unfold live. by rewrite (no_live_sockets w sock s Hl Hs).
  - destruct (sockets w !! sock) as [s|] eqn:Hs; [|done].
    unfold live. by rewrite (no_live_sockets w sock s Hl Hs).
  - destruct (sockets w !! sock) as [s|] eqn:Hs; [|done].
    by rewrite (no_live_sockets w sock s Hl Hs).
  - unfold pending. by rewrite Ht.
Qed.

(** ** The reconnection policy *)

Lemma attemptReconnect_schedules (w : World) :
  reconnectCount w < reconnectAttempts w →
  attemptReconnect w =
    set_reconnectTimeoutId (Some (next_timer w)) (snd (setTimeout (reconnectInterval w) w)).
Proof.
  intros H. unfold attemptReconnect.
  by rewrite (proj2 (Z.ltb_lt _ _) H).
Qed.




(** The scenario of the specification, on the code: two attempts, 100 ms,
    every socket fails.  Two timeouts are scheduled in all, the counter
    reaches 2 when the second one expires, and the third failure emits the
    exhaustion error once and schedules nothing. *)
Example two_attempts_scenario :
  let w0 := new_WebSocketService (mkOptions "ws://host/ws" (Some 2) (Some 100)) false in
  option_map (λ w, (reconnectCount w, timers w, next_timer w,
                    count_exhausted (emitted w), live_sockets w))
    (run [Call_connect; Ev_close 0%nat; Ev_timeout 1%nat; Ev_close 1%nat;
          Ev_timeout 2%nat; Ev_close 2%nat] w0)
  = Some (2, [], 3%nat, 1%nat, 0%nat).
Proof. reflexivity. Qed.

(** ** disconnect *)

(** What [disconnect()] does achieve, in every world: the recorded timeout
    is no longer pending, the referenced socket has been told to close and
    is no longer referenced, the channel reads as disconnected, and nothing
    is emitted. *)
Lemma disconnect_effects (w : World) :
  let w' := disconnect w in
  ws w' = None ∧ channel_state w' = Disconnected ∧
  (∀ h, reconnectTimeoutId w = Some h → pending h w' = false) ∧
  (∀ i s, ws w = Some i → sockets w !! i = Some s →
     sockets w' !! i = Some (ws_close s)) ∧
  emitted w' = emitted w ∧ reconnectCount w' = reconnectCount w.
Proof.
  cbv zeta. unfold disconnect.
  destruct (reconnectTimeoutId w) as [h|] eqn:Hh.
  - pose proof (clearTimeout_not_pending h w) as Hp.
    change (ws (clearTimeout h w)) with (ws w).
    destruct (ws w) as [i|] eqn:Hws; repeat split; try done.
    + intros h' [= <-]. exact Hp.
    + intros i' s [= <-] Hs. simpl. by rewrite list_lookup_alter_eq, Hs.
    + unfold channel_state. simpl. by rewrite Hws.
    + intros h' [= <-]. exact Hp.
  - destruct (ws w) as [i|] eqn:Hws; repeat split; try done.
    + intros i' s [= <-] Hs. simpl. by rewrite list_lookup_alter_eq, Hs.
    + unfold channel_state. by rewrite Hws.
Qed.

Lemma disconnect_idempotent (w : World) : disconnect (disconnect w) = disconnect w.
Proof.
  unfold disconnect.
  destruct (reconnectTimeoutId w) as [h|] eqn:Hh.
  - change (ws (clearTimeout h w)) with (ws w).
    destruct (ws w) as [i|] eqn:Hws; simpl.
    + rewrite Hh. simpl.
      pose proof (clearTimeout_twice h w) as Ht.
      unfold clearTimeout in Ht. simpl in Ht. injection Ht as Ht.
      unfold clearTimeout, set_timers. simpl. by rewrite Ht.
    + rewrite Hh. simpl. rewrite Hws. apply clearTimeout_twice.
  - destruct (ws w) as [i|] eqn:Hws; simpl.
    + by rewrite Hh.
    + by rewrite Hh, Hws.
Qed.

Lemma disconnect_frame (w : World) :
  reconnectAttempts (disconnect w) = reconnectAttempts w ∧
  next_timer (disconnect w) = next_timer w.
Proof.
  unfold disconnect.
  destruct (reconnectTimeoutId w); simpl; destruct (ws w); done.
Qed.

(** The close event of the socket that [disconnect()] closed still runs the
    close callback, which knows nothing of the call: with budget left, a
    retry is scheduled. *)
Lemma close_after_disconnect_schedules_retry (w : World) (i : nat) (s : WebSocket) :
  ws w = Some i → sockets w !! i = Some s → readyState s = OPEN → onclose s = true →
  reconnectCount w < reconnectAttempts w →
  ∃ w', step (Ev_close i) (disconnect w) = Some w' ∧
        pending (next_timer w) w' = true ∧
        reconnectTimeoutId w' = Some (next_timer w).
Proof.
  intros Hws Hs Hr Hc Hlt.
  destruct (disconnect_effects w) as (_ & _ & _ & Hsock & _ & Hcount).
  specialize (Hsock i s Hws Hs).
  unfold step. rewrite Hsock.
  assert (ws_close s = set_readyState CLOSING s) as -> by (unfold ws_close; by rewrite Hr).
  simpl live. cbn [onclose set_readyState].
  rewrite Hc. simpl fire. eexists. split; [done|].
  set (w1 := update_socket i _ (disconnect w)).
  assert (reconnectCount (emit "disconnected" NoArg w1) <
          reconnectAttempts (emit "disconnected" NoArg w1)) as Hlt'.
  { subst w1. simpl. rewrite Hcount.
    by rewrite (proj1 (disconnect_frame w)). }
  assert (next_timer (emit "disconnected" NoArg w1) = next_timer w) as Hn.
  { subst w1. simpl. apply (disconnect_frame w). }
  unfold on_close. rewrite (attemptReconnect_schedules _ Hlt'), Hn.
  split; [|done].
  rewrite <- Hn. apply (pending_scheduled (emit "disconnected" NoArg w1)).
Qed.

(** C1, on the code.  An open channel with budget left is disconnected: the
    channel is down and no timeout is pending.  The close event of the
    socket just closed then schedules a retry, and when that expires the
    service opens a second socket by itself.  In the second run two sockets
    fail while the first retry is still pending; [disconnect()] cancels the
    recorded timeout only, and the unrecorded one survives it. *)
Theorem disconnect_then_close_event_reconnects :
  let observe := option_map (λ w, (channel_state w, timers w, length (sockets w))) in
  observe (run [Call_connect; Ev_open 0%nat; Call_disconnect] wsService)
    = Some (Disconnected, [], 1%nat) ∧
  observe (run [Call_connect; Ev_open 0%nat; Call_disconnect; Ev_close 0%nat] wsService)
    = Some (Disconnected, [(1%nat, 3000)], 1%nat) ∧
  observe (run [Call_connect; Ev_open 0%nat; Call_disconnect; Ev_close 0%nat;
                Ev_timeout 1%nat] wsService)
    = Some (Connecting, [], 2%nat) ∧
  observe (run [Call_connect; Ev_close 0%nat; Call_connect; Ev_close 1%nat;
                Call_disconnect] wsService)
    = Some (Disconnected, [(1%nat, 3000)], 2%nat).
Proof. repeat split; vm_compute; reflexivity. Qed.

(** ** Counting live sockets and pending timeouts *)

Lemma live_count_insert (l : list WebSocket) (i : nat) (s s' : WebSocket) :
  l !! i = Some s →
  (length (filter (λ x, live x = true) (<[i := s']> l)) + Nat.b2n (live s)
   = length (filter (λ x, live x = true) l) + Nat.b2n (live s'))%nat.
Proof.
  revert i. induction l as [|x l IH]; intros [|i] H; try done; simpl in *.
  - injection H as ->. rewrite !filter_cons.
    destruct (live s), (live s'); simpl; repeat case_decide; simpl; try done; lia.
  - specialize (IH i H). rewrite !filter_cons.
    case_decide; simpl; lia.
Qed.

Lemma live_sockets_update (w : World) (i : nat) (s s' : WebSocket) :
  sockets w !! i = Some s →
  (live_sockets (update_socket i s' w) + Nat.b2n (live s)
   = live_sockets w + Nat.b2n (live s'))%nat.
Proof. intros H. unfold live_sockets. simpl. by apply live_count_insert. Qed.

Lemma same_but_log_counts (w1 w2 : World) :
  same_but_log w1 w2 →
  live_sockets w1 = live_sockets w2 ∧ pending_timers w1 = pending_timers w2.
Proof.
  intros H. unfold live_sockets, pending_timers.
  rewrite (same_but_log_sockets _ _ H).
  by injection H as _ _ _ _ _ _ _ -> _ _ _.
Qed.

Lemma on_message_same (event : MessageEvent) (w : World) :
  same_but_log (on_message event w) w.
Proof.
  unfold on_message, handleMessage.
  destruct (data_parsed event) as [m|]; [|done].
  destruct (get_prop m "type") as [t|]; [|done].
  repeat (match goal with |- context [if ?b then _ else _] => destruct b end); done.
Qed.

Lemma attemptReconnect_counts (w : World) :
  live_sockets (attemptReconnect w) = live_sockets w ∧
  (pending_timers (attemptReconnect w) ≤ S (pending_timers w))%nat.
Proof.
  unfold attemptReconnect, live_sockets, pending_timers.
  destruct (Z.ltb _ _); simpl; split; try done; try lia.
  rewrite length_app. simpl. lia.
Qed.

Lemma connect_counts (w : World) :
  (live_sockets (connect w) + pending_timers (connect w)
   ≤ S (live_sockets w + pending_timers w))%nat.
Proof.
  destruct (ws_is_open w) eqn:Ho; [rewrite connect_open by done; lia|].
  destruct (ctor_throws w) eqn:Hc.
  - destruct (connect_throws_cases w Ho Hc) as [-> | ->];
      [|unfold live_sockets, pending_timers; simpl; lia].
    destruct (attemptReconnect_counts (emit "error" (ErrArg ConstructorException) w))
      as [-> Ht].
    change (live_sockets (emit "error" (ErrArg ConstructorException) w))
      with (live_sockets w).
    change (pending_timers (emit "error" (ErrArg ConstructorException) w))
      with (pending_timers w) in Ht.
    lia.
  - rewrite connect_fresh by done.
    unfold live_sockets, pending_timers. simpl.
    rewrite filter_app, length_app. simpl. lia.
Qed.

Lemma send_counts (ty : string) (p : JSValue) (w : World) :
  live_sockets (send ty p w) = live_sockets w ∧
  pending_timers (send ty p w) = pending_timers w.
Proof.
  destruct (ws_is_open w) eqn:Ho.
  - destruct (send_when_open ty p w Ho) as (i & s & _ & Hs & _ & ->).
    split; [|done].
    pose proof (live_sockets_update w i s
                  (push_frame (JSON_stringify (mkMessage ty p)) s) Hs) as H.
    change (live (push_frame (JSON_stringify (mkMessage ty p)) s)) with (live s) in H.
    lia.
  - unfold send. by rewrite Ho.
Qed.

(** The bound is kept by every action that is not a call of [connect()] or
    [disconnect()]. *)
Lemma step_keeps_bound (a : Action) (w w' : World) :
  automatic a = true → step a w = Some w' →
  (live_sockets w + pending_timers w ≤ 1)%nat →
  (live_sockets w' + pending_timers w' ≤ 1)%nat.
Proof.
  intros Ha Hstep Hinv. destruct a; try done; simpl in Hstep.
  - injection Hstep as <-. destruct (send_counts ty p w) as [-> ->]. done.
  - by injection Hstep as <-.
  - by injection Hstep as <-.
  - destruct (sockets w !! sock) as [s|] eqn:Hs; [|done].
    destruct (ReadyState_eqb (readyState s) CONNECTING) eqn:Hr; [|done].
    injection Hstep as <-. apply ReadyState_eqb_eq in Hr.
    pose proof (live_sockets_update w sock s (set_readyState OPEN s) Hs) as H.
    unfold live in H at 1 2. rewrite Hr in H. simpl in H.
    unfold fire. destruct (onopen s); unfold on_open, live_sockets, pending_timers in *;
      simpl in *; lia.
  - destruct (sockets w !! sock) as [s|] eqn:Hs; [|done].
    destruct (live s) eqn:Hl; [|done].
    injection Hstep as <-.
    pose proof (live_sockets_update w sock s (set_readyState CLOSED s) Hs) as H.
    rewrite Hl in H. change (live (set_readyState CLOSED s)) with false in H.
    simpl in H.
    set (w1 := update_socket sock (set_readyState CLOSED s) w) in *.
    assert (pending_timers w1 = pending_timers w) as Ht by done.
    unfold fire. destruct (onclose s); [|lia].
    unfold on_close.
    destruct (attemptReconnect_counts (emit "disconnected" NoArg w1)) as [-> Hle].
    change (live_sockets (emit "disconnected" NoArg w1)) with (live_sockets w1).
    change (pending_timers (emit "disconnected" NoArg w1)) with (pending_timers w1) in Hle.
    lia.
  - destruct (sockets w !! sock) as [s|] eqn:Hs; [|done].
    destruct (live s); [|done].
    injection Hstep as <-. unfold fire. by destruct (onerror s).
  - destruct (sockets w !! sock) as [s|] eqn:Hs; [|done].
    destruct (ReadyState_eqb (readyState s) OPEN); [|done].
    injection Hstep as <-. unfold fire. destruct (onmessage s); [|done].
    destruct (same_but_log_counts _ _ (on_message_same event w)) as [-> ->]. done.
  - destruct (pending h w) eqn:Hp; [|done].
    injection Hstep as <-.
    pose proof (clearTimeout_shrinks h w Hp) as Hlt.
    unfold retry_callback.
    set (w1 := set_reconnectCount _ (clearTimeout h w)).
    pose proof (connect_counts w1) as Hc.
    assert (live_sockets w1 = live_sockets w) as Hl by done.
    assert (pending_timers w1 = length (timers (clearTimeout h w))) as Ht by done.
    unfold pending_timers in Hinv. lia.
Qed.

Lemma run_reachable (acts : list Action) (w w' : World) :
  reachable w → run acts w = Some w' → reachable w'.
Proof.
  revert w. induction acts as [|a acts IH]; intros w Hr Hrun; simpl in Hrun.
  - by injection Hrun as <-.
  - destruct (step a w) as [w1|] eqn:Hs; [|done].
    apply (IH w1); [|done]. by eapply reach_step.
Qed.












(** ** Subscriptions *)

Lemma deliver_invokes_snapshot (body : Handler → Registry → list RegistryCall)
    (snapshot : list Handler) (r : Registry) :
  snd (deliver body snapshot r) = snapshot.
Proof.
  revert r. induction snapshot as [|h rest IH]; intros r; [done|].
  simpl. specialize (IH (do_calls (body h r) r)).
  destruct (deliver body rest (do_calls (body h r) r)) as [r' invoked].
  simpl in *. by rewrite IH.
Qed.

Lemma run_script_emit_last (body : Handler → Registry → list RegistryCall)
    (pre : list RegistryOp) (e : string) (r0 : Registry) :
  snd (run_script body (pre ++ [Op_emit e]) r0)
  = snd (run_script body pre r0) ++ [listeners (fst (run_script body pre r0)) e].
Proof.
  revert r0. induction pre as [|op pre IH]; intros r0.
  - simpl. unfold emit_to_listeners.
    pose proof (deliver_invokes_snapshot body (listeners r0 e) r0) as H.
    destruct (deliver body (listeners r0 e) r0) as [r1 invoked].
    simpl in *. by rewrite H.
  - destruct op as [c|e']; simpl.
    + apply IH.
    + destruct (emit_to_listeners body e' r0) as [r1 invoked].
      specialize (IH r1).
      destruct (run_script body (pre ++ [Op_emit e]) r1) as [r2 logs].
      destruct (run_script body pre r1) as [r3 logs'].
      simpl in *. by rewrite IH.
Qed.

Section Registry.

Variable body : Handler → Registry → list RegistryCall.

Lemma listeners_on (e : string) (h : Handler) (r : Registry) :
  listeners (on e h r) e = listeners r e ++ [h].
Proof. unfold on, listeners, update_listeners. by rewrite String.eqb_refl. Qed.

Lemma listeners_update_other (e e' : string) (l : list Handler) (r : Registry) :
  e ≠ e' → listeners (update_listeners e l r) e' = listeners r e'.
Proof.
  intros H. unfold listeners, update_listeners.
  by rewrite (proj2 (String.eqb_neq e e') H).
Qed.

Lemma remove_latest_snoc (h : Handler) (l : list Handler) :
  remove_latest h (l ++ [h]) = l.
Proof.
  unfold remove_latest. rewrite reverse_snoc. simpl.
  rewrite Nat.eqb_refl. apply reverse_involutive.
Qed.

Lemma off_on (e e' : string) (h : Handler) (r : Registry) :
  listeners (off e h (on e h r)) e' = listeners r e'.
Proof.
  destruct (String.eqb_spec e e') as [<-|Hne].
  - unfold off. unfold listeners at 1, update_listeners at 1.
    rewrite String.eqb_refl, listeners_on. apply remove_latest_snoc.
  - unfold off, on. by rewrite !listeners_update_other.
Qed.

Lemma remove_first_subset (h x : Handler) (l : list Handler) :
  x ∈ remove_first h l → x ∈ l.
Proof.
  induction l as [|y l IH]; [done|]. simpl.
  destruct (Nat.eqb y h); rewrite !elem_of_cons; [tauto|].
  intros [->|H]; [by left|right; auto].
Qed.

Lemma remove_latest_subset (h x : Handler) (l : list Handler) :
  x ∈ remove_latest h l → x ∈ l.
Proof.
  unfold remove_latest. rewrite elem_of_reverse. intros H.
  apply remove_first_subset in H. by apply elem_of_reverse.
Qed.

Lemma remove_first_absent (h : Handler) (l : list Handler) :
  h ∉ l → remove_first h l = l.
Proof.
  induction l as [|y l IH]; [done|]. intros [Hy Hl]%not_elem_of_cons. simpl.
  destruct (Nat.eqb_spec y h) as [->|_]; [done|]. by rewrite IH.
Qed.

Lemma remove_first_split (h : Handler) (l1 l2 : list Handler) :
  h ∉ l1 → remove_first h (l1 ++ h :: l2) = l1 ++ l2.
Proof.
  induction l1 as [|y l1 IH]; simpl.
  - intros _. by rewrite Nat.eqb_refl.
  - intros [Hy Hl]%not_elem_of_cons.
    destruct (Nat.eqb_spec y h) as [->|_]; [done|]. by rewrite IH.
Qed.

Lemma remove_latest_absent (h : Handler) (l : list Handler) :
  h ∉ l → remove_latest h l = l.
Proof.
  intros H. unfold remove_latest.
  rewrite remove_first_absent by (by rewrite elem_of_reverse).
  apply reverse_involutive.
Qed.

Lemma remove_latest_split (h : Handler) (l1 l2 : list Handler) :
  h ∉ l2 → remove_latest h (l1 ++ h :: l2) = l1 ++ l2.
Proof.
  intros H. unfold remove_latest.
  rewrite reverse_app, reverse_cons, <- app_assoc. simpl.
  rewrite remove_first_split by (by rewrite elem_of_reverse).
  by rewrite reverse_app, !reverse_involutive.
Qed.

Lemma listeners_off (e : string) (h : Handler) (r : Registry) :
  listeners (off e h r) e = remove_latest h (listeners r e).
Proof. unfold off. unfold listeners at 1, update_listeners. by rewrite String.eqb_refl. Qed.

Lemma registrations_absent (h : Handler) (l : list Handler) :
  registrations h l = 0%nat ↔ h ∉ l.
Proof.
  unfold registrations. split.
  - intros H%nil_length_inv. by apply (filter_nil_not_elem_of _ _ h H).
  - intros H. destruct (filter (λ x, x = h) l) as [|x k] eqn:E; [done|].
    assert (x ∈ filter (λ x, x = h) l) as Hx by (rewrite E; by left).
    apply list_elem_of_filter in Hx as [-> Hx]. done.
Qed.

Lemma registrations_remove_latest (h : Handler) (l : list Handler) :
  registrations h (remove_latest h l) = pred (registrations h l).
Proof.
  destruct (decide (h ∈ l)) as [Hin|Hout].
  - apply list_elem_of_split_r in Hin as (l1 & l2 & -> & Hl2).
    rewrite remove_latest_split by done.
    unfold registrations. rewrite !filter_app, filter_cons, !length_app.
    rewrite decide_True by done. simpl. lia.
  - rewrite remove_latest_absent by done.
    by rewrite (proj2 (registrations_absent h l) Hout).
Qed.

(** The registry after a delivery: the calls of each handler of the
    snapshot, applied in the order in which the handlers ran. *)
Lemma deliver_registry (snapshot : list Handler) (r : Registry) :
  fst (deliver body snapshot r)
  = fold_left (λ acc h, do_calls (body h acc) acc) snapshot r.
Proof.
  revert r. induction snapshot as [|h rest IH]; intros r; [done|].
  simpl. specialize (IH (do_calls (body h r) r)).
  destruct (deliver body rest (do_calls (body h r) r)) as [r' invoked].
  simpl in *. done.
Qed.

(** C8, amended.  An emission invokes exactly the handlers that are
    registered for the event when it starts, in the order of their
    registration, whatever the handlers do to the registry while they run:
    a handler added during the emission is not invoked by it, and one
    removed during the emission still is; what the handlers did is in the
    registry when the emission is over.  A registration goes to the end of
    the list and touches no other event.  [off] removes one registration of
    the handler, the latest, and nothing else; so after [off] the handler is
    invoked once less than it was registered: not at all if it was
    registered once (or never), and still if it was registered twice.  In a
    script of registrations, removals and emissions, each emission invokes
    the handlers the registry holds at that point. *)
Theorem snapshot_delivery (r : Registry) (e : string) :
  snd (emit_to_listeners body e r) = listeners r e ∧
  (∀ body', snd (emit_to_listeners body' e r) = snd (emit_to_listeners body e r)) ∧
  fst (emit_to_listeners body e r)
    = fold_left (λ acc h, do_calls (body h acc) acc) (listeners r e) r ∧
  (∀ h, listeners (on e h r) e = listeners r e ++ [h]) ∧
  (∀ h e', e' ≠ e →
     listeners (on e h r) e' = listeners r e' ∧ listeners (off e h r) e' = listeners r e') ∧
  (∀ h, h ∉ listeners r e → listeners (off e h r) e = listeners r e) ∧
  (∀ h l1 l2, listeners r e = l1 ++ h :: l2 → h ∉ l2 →
     listeners (off e h r) e = l1 ++ l2) ∧
  (∀ h e', listeners (off e h (on e h r)) e' = listeners r e') ∧
  (∀ h, registrations h (snd (emit_to_listeners body e (off e h r)))
        = pred (registrations h (listeners r e))) ∧
  (∀ h, (registrations h (listeners r e) ≤ 1)%nat →
        h ∉ snd (emit_to_listeners body e (off e h r))) ∧
  (∀ h, (2 ≤ registrations h (listeners r e))%nat →
        h ∈ snd (emit_to_listeners body e (off e h r))) ∧
  (∀ h x, x ∉ listeners r e → x ∉ snd (emit_to_listeners body e (off e h r))) ∧
  (∀ pre r0,
     snd (run_script body (pre ++ [Op_emit e]) r0)
     = snd (run_script body pre r0) ++ [listeners (fst (run_script body pre r0)) e]).
Proof.
  unfold emit_to_listeners.
  assert (∀ h, registrations h (snd (deliver body (listeners (off e h r) e) (off e h r)))
               = pred (registrations h (listeners r e))) as Hcount.
  { intros h. rewrite deliver_invokes_snapshot, listeners_off.
    apply registrations_remove_latest. }
  split; [apply deliver_invokes_snapshot|].
  split; [intros body'; by rewrite !deliver_invokes_snapshot|].
  split; [apply deliver_registry|].
  split; [intros h; apply listeners_on|].
  split.
  { intros h e' Hne. unfold on, off.
    by rewrite !listeners_update_other by done. }
  split; [intros h Hh; rewrite listeners_off; by apply remove_latest_absent|].
  split.
  { intros h l1 l2 Hl Hl2. rewrite listeners_off, Hl. by apply remove_latest_split. }
  split; [intros h e'; apply off_on|].
  split; [exact Hcount|].
  split.
  { intros h Hle. apply registrations_absent. rewrite Hcount. lia. }
  split.
  { intros h Hge. destruct (decide (h ∈ snd (deliver body (listeners (off e h r) e)
                                                (off e h r)))) as [Hin|Hout]; [done|].
    apply registrations_absent in Hout. rewrite Hcount in Hout. lia. }
  split.
  - intros h x Hx. rewrite deliver_invokes_snapshot, listeners_off.
    intros H. apply Hx. by apply remove_latest_subset in H.
  - intros pre r0. apply run_script_emit_last.
Qed.

End Registry.

(** Handler 1, when it runs, registers handler 3 and removes handler 2.  The
    emission under way still invokes 1 and 2; the next one invokes 1 and 3. *)
Example mutation_during_emission :
  let body := λ (h : Handler) (_ : Registry),
    if Nat.eqb h 1 then [On "prUpdate" 3%nat; Off "prUpdate" 2%nat] else [] in
  snd (run_script body
         [Op_call (On "prUpdate" 1%nat); Op_call (On "prUpdate" 2%nat);
          Op_emit "prUpdate"; Op_emit "prUpdate"] no_listeners)
  = [[1%nat; 2%nat]; [1%nat; 3%nat]].
Proof. reflexivity. Qed.

(** C8, as stated, fails.  Handler 1 is registered twice, with handler 2 in
    between, and then removed: the emission that follows still invokes it.
    So a handler removed before an emission starts may be invoked by that
    emission. *)
Lemma removed_handler_still_invoked :
  let quiet := λ (_ : Handler) (_ : Registry), @nil RegistryCall in
  snd (run_script quiet
         [Op_call (On "prUpdate" 1%nat); Op_call (On "prUpdate" 2%nat);
          Op_call (On "prUpdate" 1%nat); Op_call (Off "prUpdate" 1%nat);
          Op_emit "prUpdate"] no_listeners)
  = [[1%nat; 2%nat]] ∧
  ¬ (∀ (r : Registry) (e : string) (h : Handler),
       h ∉ snd (emit_to_listeners quiet e (off e h r))).
Proof.
  split; [reflexivity|].
  intros H.
  apply (H (on "prUpdate" 1%nat (on "prUpdate" 2%nat (on "prUpdate" 1%nat no_listeners)))
           "prUpdate" 1%nat).
  vm_compute. by left.
Qed.

Lemma snapshot_delivery_witness :
  let body := λ (h : Handler) (_ : Registry),
    if Nat.eqb h 1 then [On "prUpdate" 3%nat; Off "prUpdate" 2%nat] else [] in
  let once := on "prUpdate" 2%nat (on "prUpdate" 1%nat no_listeners) in
  let twice := on "prUpdate" 1%nat once in
  ((registrations 2%nat (listeners once "prUpdate") ≤ 1)%nat ∧
   2%nat ∉ snd (emit_to_listeners body "prUpdate" (off "prUpdate" 2%nat once))) ∧
  ((2 ≤ registrations 1%nat (listeners twice "prUpdate"))%nat ∧
   1%nat ∈ snd (emit_to_listeners body "prUpdate" (off "prUpdate" 1%nat twice))) ∧
  (listeners twice "prUpdate" = [1%nat; 2%nat] ++ 1%nat :: [] ∧
   (1%nat ∉ ([] : list Handler)) ∧
   listeners (off "prUpdate" 1%nat twice) "prUpdate" = [1%nat; 2%nat] ++ []) ∧
  ("message" ≠ "prUpdate" ∧
   listeners (off "prUpdate" 1%nat twice) "message" = listeners twice "message").
Proof.
  cbv zeta.
  pose proof (snapshot_delivery
                (λ (h : Handler) (_ : Registry),
                   if Nat.eqb h 1 then [On "prUpdate" 3%nat; Off "prUpdate" 2%nat] else [])
                (on "prUpdate" 2%nat (on "prUpdate" 1%nat no_listeners)) "prUpdate")
    as (_ & _ & _ & _ & _ & _ & _ & _ & _ & Honce & _).
  pose proof (snapshot_delivery
                (λ (h : Handler) (_ : Registry),
                   if Nat.eqb h 1 then [On "prUpdate" 3%nat; Off "prUpdate" 2%nat] else [])
                (on "prUpdate" 1%nat
                   (on "prUpdate" 2%nat (on "prUpdate" 1%nat no_listeners))) "prUpdate")
    as (_ & _ & _ & _ & Hother & _ & Hsplit & _ & _ & _ & Htwice & _).
  assert (registrations 2%nat
            (listeners (on "prUpdate" 2%nat (on "prUpdate" 1%nat no_listeners)) "prUpdate")
          ≤ 1)%nat as H1 by (vm_compute; lia).
  assert (2 ≤ registrations 1%nat
                (listeners (on "prUpdate" 1%nat
                              (on "prUpdate" 2%nat (on "prUpdate" 1%nat no_listeners)))
                   "prUpdate"))%nat as H2 by (vm_compute; lia).
  assert ("message" ≠ "prUpdate") as Hne by discriminate.
  split; [exact (conj H1 (Honce 2%nat H1))|].
  split; [exact (conj H2 (Htwice 1%nat H2))|].
  split.
  - split; [reflexivity|]. split; [apply not_elem_of_nil|].
    exact (Hsplit 1%nat [1%nat; 2%nat] [] eq_refl (not_elem_of_nil 1%nat)).
  - split; [exact Hne|]. exact (proj2 (Hother 1%nat "message" Hne)).
Defined.

(** ** The retry budget, end to end *)




Lemma step_close_below_budget (i : nat) (s : WebSocket)
    (r : option nat) (budget delay count : Z) (tid : option nat) (u : string)
    (socks : list WebSocket) (tm : list (nat * Z)) (nt : nat) (em : list Emission)
    (thr : bool) (ls : nat) :
  socks !! i = Some s → live s = true → onclose s = true → count < budget →
  step (Ev_close i) (mkWorld r budget delay count tid u socks tm nt em thr ls)
  = Some (mkWorld r budget delay count (Some nt) u
            (<[i := set_readyState CLOSED s]> socks) (tm ++ [(nt, delay)]) (S nt)
            (em ++ [mkEmission "disconnected" NoArg]) thr ls).
Proof.
  intros Hs Hl Hc Hlt. unfold step. simpl. rewrite Hs, Hl, Hc. simpl.
  unfold on_close, attemptReconnect. simpl.
  by rewrite (proj2 (Z.ltb_lt _ _) Hlt).
Qed.

Lemma step_close_at_budget (i : nat) (s : WebSocket)
    (r : option nat) (budget delay count : Z) (tid : option nat) (u : string)
    (socks : list WebSocket) (tm : list (nat * Z)) (nt : nat) (em : list Emission)
    (thr : bool) (ls : nat) :
  socks !! i = Some s → live s = true → onclose s = true → (budget ≤ count)%Z →
  step (Ev_close i) (mkWorld r budget delay count tid u socks tm nt em thr ls)
  = Some (mkWorld r budget delay count tid u
            (<[i := set_readyState CLOSED s]> socks) tm nt
            (em ++ [mkEmission "disconnected" NoArg; ReconnectExhausted]) thr ls).
Proof.
  intros Hs Hl Hc Hle. unfold step. simpl. rewrite Hs, Hl, Hc. simpl.
  unfold on_close, attemptReconnect. simpl.
  rewrite (proj2 (Z.ltb_ge _ _) Hle). unfold emit. simpl.
  by rewrite <- app_assoc.
Qed.







(** ** Every socket stays wired *)

Lemma wired_same_sockets (w w' : World) :
  sockets w' = sockets w → url w' = url w → wired w → wired w'.
Proof. unfold wired. by intros -> ->. Qed.

Lemma wired_alter (f : WebSocket → WebSocket) (i : nat) (w : World) :
  (∀ u s, wired_socket u s → wired_socket u (f s)) →
  wired w → wired (set_sockets (alter f i (sockets w)) w).
Proof.
  intros Hf Hw. unfold wired in *. simpl.
  apply Forall_alter; [done|]. intros s _. apply Hf.
Qed.

Lemma wired_attemptReconnect (w : World) : wired w → wired (attemptReconnect w).
Proof.
  apply wired_same_sockets; unfold attemptReconnect; by destruct (Z.ltb _ _).
Qed.

Lemma wired_connect (w : World) : wired w → wired (connect w).
Proof.
  intros Hw.
  destruct (ws_is_open w) eqn:Ho; [by rewrite connect_open|].
  destruct (ctor_throws w) eqn:Hc.
  - destruct (connect_throws_cases w Ho Hc) as [-> | ->]; [|done].
    by apply wired_attemptReconnect.
  - rewrite connect_fresh by done. unfold wired in *. simpl.
    apply Forall_app. split; [done|]. by apply Forall_singleton.
Qed.

Lemma wired_disconnect (w : World) : wired w → wired (disconnect w).
Proof.
  intros Hw. unfold disconnect.
  set (w1 := match reconnectTimeoutId w with
             | Some h => clearTimeout h w
             | None => w
             end).
  assert (wired w1) as Hw1 by (subst w1; by destruct (reconnectTimeoutId w)).
  destruct (ws w1) as [i|]; [|done].
  apply (wired_same_sockets (set_sockets (alter ws_close i (sockets w1)) w1)); try done.
  apply wired_alter; [|done].
  intros u s Hs. unfold ws_close. by destruct (readyState s).
Qed.

Lemma wired_send (ty : string) (p : JSValue) (w : World) : wired w → wired (send ty p w).
Proof.
  intros Hw. unfold send. destruct (ws_is_open w); [|done].
  destruct (ws w) as [i|]; [|done]. by apply wired_alter.
Qed.

Lemma wired_update (i : nat) (r : ReadyState) (s : WebSocket) (w : World) :
  sockets w !! i = Some s → wired w → wired (update_socket i (set_readyState r s) w).
Proof.
  intros Hs Hw. unfold wired in *. simpl.
  apply Forall_insert; [done|].
  exact (Forall_lookup_1 _ _ _ _ Hw Hs).
Qed.

Lemma wired_step (a : Action) (w w' : World) :
  step a w = Some w' → wired w → wired w'.
Proof.
  intros Hstep Hw. destruct a; simpl in Hstep.
  - injection Hstep as <-. by apply wired_connect.
  - injection Hstep as <-. by apply wired_disconnect.
  - injection Hstep as <-. by apply wired_send.
  - by injection Hstep as <-.
  - by injection Hstep as <-.
  - destruct (sockets w !! sock) as [s|] eqn:Hs; [|done].
    destruct (ReadyState_eqb _ _); [|done]. injection Hstep as <-.
    pose proof (wired_update sock OPEN s w Hs Hw).
    unfold fire. by destruct (onopen s).
  - destruct (sockets w !! sock) as [s|] eqn:Hs; [|done].
    destruct (live s); [|done]. injection Hstep as <-.
    pose proof (wired_update sock CLOSED s w Hs Hw).
    unfold fire. destruct (onclose s); [|done].
    by apply wired_attemptReconnect.
  - destruct (sockets w !! sock) as [s|] eqn:Hs; [|done].
    destruct (live s); [|done]. injection Hstep as <-.
    unfold fire. by destruct (onerror s).
  - destruct (sockets w !! sock) as [s|] eqn:Hs; [|done].
    destruct (ReadyState_eqb _ _); [|done]. injection Hstep as <-.
    unfold fire. destruct (onmessage s); [|done].
    pose proof (on_message_same event w) as Hsame.
    apply (wired_same_sockets w); [by apply same_but_log_sockets| |done].
    by injection Hsame.
  - destruct (pending h w); [|done]. injection Hstep as <-.
    unfold retry_callback. by apply wired_connect.
Qed.

Lemma reachable_wired (w : World) : reachable w → wired w.
Proof.
  induction 1 as [options throws | a w w' Hr IH Hs].
  - by apply Forall_nil.
  - by eapply wired_step.
Qed.

(** In every reachable world in which the channel is open and budget is
    left, [disconnect()] does not end the matter: the close event of the
    socket it closed can be delivered, and delivering it schedules a retry. *)
Lemma disconnect_reconnects_in_general (w : World) :
  reachable w → channel_state w = Open → reconnectCount w < reconnectAttempts w →
  ∃ i w', ws w = Some i ∧ channel_state (disconnect w) = Disconnected ∧
          step (Ev_close i) (disconnect w) = Some w' ∧
          pending (next_timer w) w' = true.
Proof.
  intros Hr Ho Hlt. unfold channel_state in Ho.
  destruct (ws w) as [i|] eqn:Hws; [|done].
  destruct (sockets w !! i) as [s|] eqn:Hs; [|done].
  assert (readyState s = OPEN) as Hrs by (by destruct (readyState s)).
  destruct (Forall_lookup_1 _ _ _ _ (reachable_wired w Hr) Hs) as (_ & _ & Hc & _).
  destruct (close_after_disconnect_schedules_retry w i s Hws Hs Hrs Hc Hlt)
    as (w' & Hstep & Hp & _).
  exists i, w'. repeat split; try done.
  apply disconnect_effects.
Qed.

(** * Further properties of the module *)

(** ** Invariants of every run *)

Lemma run_app (a b : list Action) (w : World) :
  run (a ++ b) w = match run a w with Some w' => run b w' | None => None end.
Proof.
  revert w. induction a as [|x a IH]; intros w; simpl; [done|].
  destruct (step x w); [apply IH|done].
Qed.

Lemma run_invariant (P : World → Prop) :
  (∀ a w w', P w → step a w = Some w' → P w') →
  ∀ acts w w', P w → run acts w = Some w' → P w'.
Proof.
  intros Hstep acts. induction acts as [|a acts IH]; intros w w' HP Hrun; simpl in Hrun.
  - by injection Hrun as <-.
  - destruct (step a w) as [w1|] eqn:Hs; [|done].
    apply (IH w1); [|done]. by eapply Hstep.
Qed.

Lemma configuration_same_but_log (w1 w2 : World) :
  same_but_log w1 w2 → configuration w1 = configuration w2.
Proof. intros H. unfold configuration. by injection H as _ -> -> _ _ -> _ _ _ _ _. Qed.

Lemma configuration_attemptReconnect (w : World) :
  configuration (attemptReconnect w) = configuration w.
Proof. unfold attemptReconnect. by destruct (Z.ltb _ _). Qed.

Lemma configuration_connect (w : World) : configuration (connect w) = configuration w.
Proof.
  destruct (ws_is_open w) eqn:Ho; [by rewrite connect_open|].
  destruct (ctor_throws w) eqn:Hc.
  - destruct (connect_throws_cases w Ho Hc) as [-> | ->]; [|done].
    by rewrite configuration_attemptReconnect.
  - by rewrite connect_fresh.
Qed.

Lemma configuration_disconnect (w : World) :
  configuration (disconnect w) = configuration w.
Proof.
  unfold disconnect.
  destruct (reconnectTimeoutId w); simpl; destruct (ws w); done.
Qed.

Lemma configuration_send (ty : string) (p : JSValue) (w : World) :
  configuration (send ty p w) = configuration w.
Proof.
  destruct (ws_is_open w) eqn:Ho.
  - by destruct (send_when_open ty p w Ho) as (i & s & _ & _ & _ & ->).
  - by rewrite send_when_closed.
Qed.

Lemma configuration_step (a : Action) (w w' : World) :
  step a w = Some w' → configuration w' = configuration w.
Proof.
  intros Hstep. destruct a; simpl in Hstep.
  - injection Hstep as <-. apply configuration_connect.
  - injection Hstep as <-. apply configuration_disconnect.
  - injection Hstep as <-. apply configuration_send.
  - by injection Hstep as <-.
  - by injection Hstep as <-.
  - destruct (sockets w !! sock) as [s|]; [|done].
    destruct (ReadyState_eqb _ _); [|done]. injection Hstep as <-.
    unfold fire. by destruct (onopen s).
  - destruct (sockets w !! sock) as [s|]; [|done].
    destruct (live s); [|done]. injection Hstep as <-.
    unfold fire. destruct (onclose s); [|done].
    unfold on_close. by rewrite configuration_attemptReconnect.
  - destruct (sockets w !! sock) as [s|]; [|done].
    destruct (live s); [|done]. injection Hstep as <-.
    unfold fire. by destruct (onerror s).
  - destruct (sockets w !! sock) as [s|]; [|done].
    destruct (ReadyState_eqb _ _); [|done]. injection Hstep as <-.
    unfold fire. destruct (onmessage s); [|done].
    apply configuration_same_but_log, on_message_same.
  - destruct (pending h w); [|done]. injection Hstep as <-.
    unfold retry_callback. by rewrite configuration_connect.
Qed.

Lemma configuration_run (acts : list Action) (w w' : World) :
  run acts w = Some w' → configuration w' = configuration w.
Proof.
  intros Hrun.
  apply (run_invariant (λ v, configuration v = configuration w)) with acts w; try done.
  intros a v v' Hv Hs. by rewrite (configuration_step a v v' Hs).
Qed.

(** X1.  The service is configured once.  Whatever is called and whatever
    the sockets and timers do afterwards, the address, the attempt budget
    and the retry interval stay what the constructor made of the options of
    the first [getInstance] call; a later [getInstance] with other options
    returns the same instance and changes none of them. *)
Theorem configured_once (first later : WebSocketServiceOptions) (t1 t2 : bool)
    (acts : list Action) (w : World) :
  run acts (getInstance first t1 None) = Some w →
  getInstance later t2 (Some w) = w ∧
  configuration w =
    (opt_url first,
     or_default (opt_reconnectAttempts first) 5,
     or_default (opt_reconnectInterval first) 3000).
Proof.
  intros Hrun. split; [done|].
  by rewrite (configuration_run acts _ w Hrun).
Qed.

Lemma configured_once_witness :
  let first := mkOptions "ws://host/ws" (Some 2) (Some 100) in
  let later := mkOptions "ws://other/ws" (Some 9) None in
  let w := default wsService
             (run [Call_connect; Ev_close 0%nat; Ev_timeout 1%nat; Call_disconnect]
                (getInstance first false None)) in
  run [Call_connect; Ev_close 0%nat; Ev_timeout 1%nat; Call_disconnect]
    (getInstance first false None) = Some w ∧
  getInstance later false (Some w) = w ∧
  configuration w = ("ws://host/ws", 2, 100).
Proof.
  assert (run [Call_connect; Ev_close 0%nat; Ev_timeout 1%nat; Call_disconnect]
            (getInstance (mkOptions "ws://host/ws" (Some 2) (Some 100)) false None)
          = Some (default wsService
                    (run [Call_connect; Ev_close 0%nat; Ev_timeout 1%nat; Call_disconnect]
                       (getInstance (mkOptions "ws://host/ws" (Some 2) (Some 100))
                          false None)))) as Hrun
    by (vm_compute; reflexivity).
  split; [exact Hrun|].
  exact (configured_once (mkOptions "ws://host/ws" (Some 2) (Some 100))
           (mkOptions "ws://other/ws" (Some 9) None) false false _ _ Hrun).
Defined.

(** X2.  Every socket the service has ever created, whether it still
    references it or not, was made for the configured address and carries
    all four callbacks of [setupEventListeners]: no socket is left without a
    close or data callback, and none is ever pointed elsewhere. *)
Theorem every_socket_wired (options : WebSocketServiceOptions) (throws : bool)
    (acts : list Action) (w : World) :
  run acts (new_WebSocketService options throws) = Some w →
  Forall (λ s, ws_url s = opt_url options ∧ onopen s = true ∧ onclose s = true ∧
               onerror s = true ∧ onmessage s = true) (sockets w).
Proof.
  intros Hrun.
  assert (reachable w) as Hr by (eapply run_reachable; [apply reach_new|exact Hrun]).
  pose proof (reachable_wired w Hr) as Hw.
  pose proof (configuration_run acts _ w Hrun) as Hc.
  injection Hc as Hu _ _. unfold wired, wired_socket in Hw.
  simpl in Hu. by rewrite Hu in Hw.
Qed.

Lemma every_socket_wired_witness :
  let acts := [Call_connect; Call_connect; Ev_close 0%nat; Call_disconnect; Call_connect] in
  let w := default wsService (run acts wsService) in
  run acts wsService = Some w ∧ length (sockets w) = 3%nat ∧
  Forall (λ s, ws_url s = "ws://localhost:8000/ws" ∧ onopen s = true ∧ onclose s = true ∧
               onerror s = true ∧ onmessage s = true) (sockets w).
Proof.
  assert (run [Call_connect; Call_connect; Ev_close 0%nat; Call_disconnect; Call_connect]
            wsService
          = Some (default wsService
                    (run [Call_connect; Call_connect; Ev_close 0%nat; Call_disconnect;
                          Call_connect] wsService))) as Hrun
    by (vm_compute; reflexivity).
  split; [exact Hrun|]. split; [vm_compute; reflexivity|].
  exact (every_socket_wired (mkOptions "ws://localhost:8000/ws" None None) false _ _ Hrun).
Defined.

(** ** The retry interval *)

Lemma fixed_delay_frame (w w' : World) :
  timers w' = timers w → reconnectInterval w' = reconnectInterval w →
  fixed_delay w → fixed_delay w'.
Proof. unfold fixed_delay. by intros -> ->. Qed.

Lemma fixed_delay_same_but_log (w1 w2 : World) :
  same_but_log w1 w2 → fixed_delay w2 → fixed_delay w1.
Proof. intros H. apply fixed_delay_frame; by injection H. Qed.

Lemma fixed_delay_attemptReconnect (w : World) :
  fixed_delay w → fixed_delay (attemptReconnect w).
Proof.
  intros H. unfold attemptReconnect. destruct (Z.ltb _ _); [|done].
  unfold fixed_delay in *. simpl. apply Forall_app. split; [done|].
  by apply Forall_singleton.
Qed.

Lemma fixed_delay_clearTimeout (h : nat) (w : World) :
  fixed_delay w → fixed_delay (clearTimeout h w).
Proof.
  unfold fixed_delay, clearTimeout. simpl. rewrite !Forall_forall.
  intros H t Ht. apply H. by apply list_elem_of_filter in Ht as [_ Ht].
Qed.

Lemma fixed_delay_connect (w : World) : fixed_delay w → fixed_delay (connect w).
Proof.
  intros H.
  destruct (ws_is_open w) eqn:Ho; [by rewrite connect_open|].
  destruct (ctor_throws w) eqn:Hc.
  - destruct (connect_throws_cases w Ho Hc) as [-> | ->]; [|done].
    by apply fixed_delay_attemptReconnect.
  - by rewrite connect_fresh.
Qed.

Lemma fixed_delay_step (a : Action) (w w' : World) :
  fixed_delay w → step a w = Some w' → fixed_delay w'.
Proof.
  intros H Hstep. destruct a; simpl in Hstep.
  - injection Hstep as <-. by apply fixed_delay_connect.
  - injection Hstep as <-. unfold disconnect.
    assert (fixed_delay (match reconnectTimeoutId w with
                         | Some h => clearTimeout h w
                         | None => w
                         end)) as H1.
    { destruct (reconnectTimeoutId w); [by apply fixed_delay_clearTimeout|done]. }
    by destruct (ws _).
  - injection Hstep as <-.
    destruct (ws_is_open w) eqn:Ho.
    + by destruct (send_when_open ty p w Ho) as (i & s & _ & _ & _ & ->).
    + by rewrite send_when_closed.
  - by injection Hstep as <-.
  - by injection Hstep as <-.
  - destruct (sockets w !! sock) as [s|]; [|done].
    destruct (ReadyState_eqb _ _); [|done]. injection Hstep as <-.
    unfold fire. by destruct (onopen s).
  - destruct (sockets w !! sock) as [s|]; [|done].
    destruct (live s); [|done]. injection Hstep as <-.
    unfold fire. destruct (onclose s); [|done].
    by apply fixed_delay_attemptReconnect.
  - destruct (sockets w !! sock) as [s|]; [|done].
    destruct (live s); [|done]. injection Hstep as <-.
    unfold fire. by destruct (onerror s).
  - destruct (sockets w !! sock) as [s|]; [|done].
    destruct (ReadyState_eqb _ _); [|done]. injection Hstep as <-.
    unfold fire. destruct (onmessage s); [|done].
    apply (fixed_delay_same_but_log _ w); [apply on_message_same|done].
  - destruct (pending h w); [|done]. injection Hstep as <-.
    unfold retry_callback. apply fixed_delay_connect.
    by apply (fixed_delay_clearTimeout h) in H.
Qed.

(** X3.  The backoff is fixed: in every run, every retry timer that is
    pending was armed with the configured interval (the default 3000 ms
    when the option is absent or 0), however many retries came before. *)
Theorem retry_delay_is_fixed (options : WebSocketServiceOptions) (throws : bool)
    (acts : list Action) (w : World) :
  run acts (new_WebSocketService options throws) = Some w →
  Forall (λ t, snd t = or_default (opt_reconnectInterval options) 3000) (timers w).
Proof.
  intros Hrun.
  assert (fixed_delay w) as H.
  { apply (run_invariant fixed_delay fixed_delay_step acts
             (new_WebSocketService options throws) w); [|done].
    apply Forall_nil_2. }
  pose proof (configuration_run acts _ w Hrun) as Hc.
  injection Hc as _ _ Hi. unfold fixed_delay in H. simpl in Hi. by rewrite Hi in H.
Qed.

Lemma retry_delay_is_fixed_witness :
  let acts := [Call_connect; Ev_close 0%nat; Call_connect; Ev_close 1%nat] in
  let w := default wsService (run acts wsService) in
  run acts wsService = Some w ∧ length (timers w) = 2%nat ∧
  Forall (λ t, snd t = 3000) (timers w).
Proof.
  assert (run [Call_connect; Ev_close 0%nat; Call_connect; Ev_close 1%nat] wsService
          = Some (default wsService
                    (run [Call_connect; Ev_close 0%nat; Call_connect; Ev_close 1%nat]
                       wsService))) as Hrun
    by (vm_compute; reflexivity).
  split; [exact Hrun|]. split; [vm_compute; reflexivity|].
  exact (retry_delay_is_fixed (mkOptions "ws://localhost:8000/ws" None None) false _ _ Hrun).
Defined.

(** ** The attempt counter *)

Lemma counter_frame (w w' : World) :
  reconnectCount w' = reconnectCount w → reconnectAttempts w' = reconnectAttempts w →
  timers w' = timers w → counter_in_budget w → counter_in_budget w'.
Proof. unfold counter_in_budget. by intros -> -> ->. Qed.

Lemma counter_same_but_log (w1 w2 : World) :
  same_but_log w1 w2 → counter_in_budget w2 → counter_in_budget w1.
Proof. intros H. apply counter_frame; by injection H. Qed.

Lemma counter_attemptReconnect (w : World) :
  counter_in_budget w → counter_in_budget (attemptReconnect w).
Proof.
  intros (H0 & Hmax & Ht). unfold attemptReconnect.
  destruct (Z.ltb_spec (reconnectCount w) (reconnectAttempts w)) as [Hlt|Hge]; [|done].
  unfold counter_in_budget. simpl. done.
Qed.

Lemma counter_connect (w : World) : counter_in_budget w → counter_in_budget (connect w).
Proof.
  intros H.
  destruct (ws_is_open w) eqn:Ho; [by rewrite connect_open|].
  destruct (ctor_throws w) eqn:Hc.
  - destruct (connect_throws_cases w Ho Hc) as [-> | ->]; [|done].
    by apply counter_attemptReconnect.
  - by rewrite connect_fresh.
Qed.

Lemma counter_step (a : Action) (w w' : World) :
  automatic a = true → step a w = Some w' →
  (live_sockets w + pending_timers w ≤ 1)%nat →
  counter_in_budget w → counter_in_budget w'.
Proof.
  intros Ha Hstep Hb H. destruct a; try done; simpl in Hstep.
  - injection Hstep as <-.
    destruct (ws_is_open w) eqn:Ho.
    + by destruct (send_when_open ty p w Ho) as (i & s & _ & _ & _ & ->).
    + by rewrite send_when_closed.
  - by injection Hstep as <-.
  - by injection Hstep as <-.
  - destruct (sockets w !! sock) as [s|]; [|done].
    destruct (ReadyState_eqb _ _); [|done]. injection Hstep as <-.
    unfold fire. destruct (onopen s); [|done].
    destruct H as (H0 & Hmax & Ht).
    unfold counter_in_budget, on_open. simpl.
    split; [done|]. split; [lia|]. intros Hne. specialize (Ht Hne). lia.
  - destruct (sockets w !! sock) as [s|]; [|done].
    destruct (live s); [|done]. injection Hstep as <-.
    unfold fire. destruct (onclose s); [|done].
    by apply counter_attemptReconnect.
  - destruct (sockets w !! sock) as [s|]; [|done].
    destruct (live s); [|done]. injection Hstep as <-.
    unfold fire. by destruct (onerror s).
  - destruct (sockets w !! sock) as [s|]; [|done].
    destruct (ReadyState_eqb _ _); [|done]. injection Hstep as <-.
    unfold fire. destruct (onmessage s); [|done].
    apply (counter_same_but_log _ w); [apply on_message_same|done].
  - destruct (pending h w) eqn:Hp; [|done]. injection Hstep as <-.
    unfold retry_callback. apply counter_connect.
    pose proof (clearTimeout_shrinks h w Hp) as Hlt.
    destruct H as (H0 & Hmax & Ht).
    assert (timers w ≠ []) as Hne by (intros E; rewrite E in Hlt; simpl in Hlt; lia).
    specialize (Ht Hne).
    assert (timers (clearTimeout h w) = []) as Hnil.
    { apply nil_length_inv. unfold pending_timers in Hb. lia. }
    unfold counter_in_budget. simpl timers. simpl reconnectCount.
    simpl reconnectAttempts. rewrite Hnil in *.
    split; [lia|]. split; [lia|done].
Qed.

(** X4.  Left to itself (one [connect()], then socket events, timeouts,
    sends and subscription calls only), the service never counts past its
    budget: the attempt counter stays between 0 and the budget (0 when the
    budget is negative), and a retry timer is pending only while the counter
    is below the budget. *)
Theorem counter_stays_in_budget (w : World) :
  reachable_auto w →
  (0 ≤ reconnectCount w)%Z ∧
  (reconnectCount w ≤ Z.max 0 (reconnectAttempts w))%Z ∧
  (timers w ≠ [] → reconnectCount w < reconnectAttempts w).
Proof.
  intros Hr.
  assert ((live_sockets w + pending_timers w ≤ 1)%nat ∧ counter_in_budget w) as [_ H];
    [|exact H].
  induction Hr as [options throws | a w w' Hr [Hb IH] Ha Hs].
  - split; [apply connect_counts|].
    apply counter_connect. unfold counter_in_budget. simpl.
    split; [done|]. split; [lia|done].
  - split; [by eapply step_keeps_bound|by eapply counter_step].
Qed.

Lemma counter_stays_in_budget_witness :
  let w := connect (set_error_listeners 1
                      (new_WebSocketService
                         (mkOptions "ws://host/ws" (Some 2) (Some 100)) true)) in
  reachable_auto w ∧ timers w ≠ [] ∧ reconnectCount w < reconnectAttempts w.
Proof.
  pose proof (auto_start (mkOptions "ws://host/ws" (Some 2) (Some 100)) true 1) as Hr.
  split; [exact Hr|]. split; [discriminate|].
  exact (proj2 (proj2 (counter_stays_in_budget _ Hr)) ltac:(discriminate)).
Defined.

(** With calls in between, the counter does pass the budget: two retries
    armed around an explicit [connect()] both expire. *)
Example counter_passes_budget_with_calls :
  option_map (λ w, (reconnectCount w, reconnectAttempts w))
    (run [Call_connect; Ev_close 0%nat; Call_connect; Ev_close 1%nat;
          Ev_timeout 1%nat; Ev_close 2%nat; Ev_timeout 2%nat]
       (new_WebSocketService (mkOptions "ws://host/ws" (Some 1) (Some 100)) false))
  = Some (2, 1).
Proof. vm_compute. reflexivity. Qed.

(** ** An address the constructor rejects *)

Lemma step_timeout_throwing_below (h nt : nat) (budget delay count d : Z)
    (tid : option nat) (u : string) (socks : list WebSocket) (em : list Emission)
    (ls : nat) :
  count + 1 < budget →
  step (Ev_timeout h)
    (mkWorld None budget delay count tid u socks [(h, d)] nt em true (S ls))
  = Some (mkWorld None budget delay (count + 1) (Some nt) u socks [(nt, delay)] (S nt)
            (em ++ [ConstructorFailed]) true (S ls)).
Proof.
  intros Hlt. unfold step, pending. simpl. rewrite Nat.eqb_refl. simpl.
  unfold retry_callback, clearTimeout. simpl.
  rewrite filter_cons. simpl. rewrite Nat.eqb_refl. simpl.
  unfold connect, ws_is_open. simpl.
  unfold attemptReconnect. simpl.
  by rewrite (proj2 (Z.ltb_lt _ _) Hlt).
Qed.

Lemma step_timeout_throwing_last (h nt : nat) (budget delay count d : Z)
    (tid : option nat) (u : string) (socks : list WebSocket) (em : list Emission)
    (ls : nat) :
  (budget ≤ count + 1)%Z →
  step (Ev_timeout h)
    (mkWorld None budget delay count tid u socks [(h, d)] nt em true (S ls))
  = Some (mkWorld None budget delay (count + 1) tid u socks [] nt
            (em ++ [ConstructorFailed; ReconnectExhausted]) true (S ls)).
Proof.
  intros Hle. unfold step, pending. simpl. rewrite Nat.eqb_refl. simpl.
  unfold retry_callback, clearTimeout. simpl.
  rewrite filter_cons. simpl. rewrite Nat.eqb_refl. simpl.
  unfold connect, ws_is_open. simpl.
  unfold attemptReconnect. simpl.
  rewrite (proj2 (Z.ltb_ge _ _) Hle). unfold emit. simpl.
  by rewrite <- app_assoc.
Qed.

Lemma set_error_listeners_same (w : World) :
  set_error_listeners (error_listeners w) w = w.
Proof. by destruct w. Qed.

Lemma run_subscriptions (k : nat) (rest : list Action) (w : World) :
  run (replicate k Call_on_error ++ rest) w
  = run rest (set_error_listeners (error_listeners w + k) w).
Proof.
  revert w. induction k as [|k IH]; intros w.
  - by rewrite Nat.add_0_r, set_error_listeners_same.
  - change (run (replicate (S k) Call_on_error ++ rest) w)
      with (run (replicate k Call_on_error ++ rest)
              (set_error_listeners (S (error_listeners w)) w)).
    rewrite IH. destruct w. unfold set_error_listeners. simpl.
    by replace (S (error_listeners0 + k))%nat with (error_listeners0 + S k)%nat by lia.
Qed.

Lemma run_unsubscriptions (k : nat) (rest : list Action) (w : World) :
  run (replicate k Call_off_error ++ rest) w
  = run rest (set_error_listeners (error_listeners w - k) w).
Proof.
  revert w. induction k as [|k IH]; intros w.
  - by rewrite Nat.sub_0_r, set_error_listeners_same.
  - change (run (replicate (S k) Call_off_error ++ rest) w)
      with (run (replicate k Call_off_error ++ rest)
              (set_error_listeners (pred (error_listeners w)) w)).
    rewrite IH. destruct w. unfold set_error_listeners. simpl.
    by replace (pred error_listeners0 - k)%nat with (error_listeners0 - S k)%nat by lia.
Qed.

Lemma connect_throwing_start (budget delay : Z) (u : string) (ls : nat) :
  0 < budget → delay ≠ 0 →
  connect (set_error_listeners (S ls)
             (new_WebSocketService (mkOptions u (Some budget) (Some delay)) true))
  = after_throws budget delay u ls 0.
Proof.
  intros Hb Hd. unfold new_WebSocketService, after_throws. simpl.
  rewrite (proj2 (Z.eqb_neq budget 0)) by lia.
  rewrite (proj2 (Z.eqb_neq _ _) Hd).
  unfold connect, ws_is_open. simpl. unfold attemptReconnect. simpl.
  by rewrite (proj2 (Z.ltb_lt _ _) Hb).
Qed.

Lemma throwing_round (budget delay : Z) (u : string) (ls j : nat) :
  Z.of_nat (S j) < budget →
  run [Ev_timeout (S j)] (after_throws budget delay u ls j)
  = Some (after_throws budget delay u ls (S j)).
Proof.
  intros Hlt. unfold run, after_throws.
  rewrite step_timeout_throwing_below by lia.
  do 2 f_equal; [lia|]. by rewrite (replicate_S_end (S j)).
Qed.

Lemma throwing_rounds (budget delay : Z) (u : string) (ls k j : nat)
    (rest : list Action) :
  Z.of_nat (j + k) < budget →
  run (expiries k (S j) ++ rest) (after_throws budget delay u ls j)
  = run rest (after_throws budget delay u ls (j + k)).
Proof.
  revert j. induction k as [|k IH]; intros j Hlt.
  - by rewrite Nat.add_0_r.
  - change (expiries (S k) (S j) ++ rest)
      with ([Ev_timeout (S j)] ++ (expiries k (S (S j)) ++ rest)).
    rewrite run_app, throwing_round by lia.
    rewrite IH by lia. by replace (S j + k)%nat with (j + S k)%nat by lia.
Qed.

Lemma expiries_snoc (k first : nat) :
  expiries (S k) first = expiries k first ++ [Ev_timeout (first + k)].
Proof.
  revert first. induction k as [|k IH]; intros first.
  - simpl. by rewrite Nat.add_0_r.
  - change (expiries (S (S k)) first) with (Ev_timeout first :: expiries (S k) (S first)).
    rewrite IH. simpl. by replace (first + S k)%nat with (S (first + k)) by lia.
Qed.

(** X5.  An address the constructor rejects.  With a listener subscribed
    to [error] (one or more), [connect()] returns: the exception is emitted
    as an [error] and the retry path is taken.  With a budget of [n] the
    constructor is tried [n + 1] times in all, each failure is emitted, the
    last one is followed by one exhaustion error, no socket object ever
    exists, and then nothing is left to happen.  Without a listener (none
    was subscribed, or each one has unsubscribed again) the [emit] in the
    [catch] block throws in its turn, [connect()] ends there, and the very
    first failure is final: it is emitted once, no retry is armed, the
    counter stays at 0, and nothing is left to happen either. *)
Theorem rejected_address_retries_then_stops (n k : nat) (delay : Z) (u : string) :
  (0 < n)%nat → delay ≠ 0 →
  let w0 := new_WebSocketService (mkOptions u (Some (Z.of_nat n)) (Some delay)) true in
  (∃ w, run (replicate (S k) Call_on_error ++ Call_connect :: expiries n 1) w0 = Some w ∧
        sockets w = [] ∧ ws w = None ∧
        reconnectCount w = Z.of_nat n ∧
        timers w = [] ∧
        emitted w = replicate (S n) ConstructorFailed ++ [ReconnectExhausted] ∧
        ∀ a, is_event a = true → step a w = None) ∧
  (∃ w, run (replicate k Call_on_error ++ replicate k Call_off_error ++ [Call_connect]) w0
        = Some w ∧
        emit_throws "error" w = true ∧
        sockets w = [] ∧ ws w = None ∧
        reconnectCount w = 0 ∧
        timers w = [] ∧ reconnectTimeoutId w = None ∧
        emitted w = [ConstructorFailed] ∧
        ∀ a, is_event a = true → step a w = None).
Proof.
  intros Hn Hd. cbv zeta. split.
  - destruct n as [|m]; [lia|].
    rewrite (expiries_snoc m 1). change (1 + m)%nat with (S m).
    rewrite run_subscriptions. cbn [run step].
    change (error_listeners (new_WebSocketService _ true) + S k)%nat with (S k).
    rewrite connect_throwing_start by (done || lia).
    rewrite throwing_rounds by lia. simpl Nat.add.
    unfold run, after_throws.
    rewrite step_timeout_throwing_last by lia.
    eexists. split; [reflexivity|]. simpl.
    split; [done|]. split; [done|]. split; [lia|]. split; [done|]. split.
    + f_equal.
      change [ConstructorFailed; ReconnectExhausted]
        with ([ConstructorFailed] ++ [ReconnectExhausted]).
      by rewrite app_assoc, <- replicate_S_end.
    + intros a Ha. by apply quiescent.
  - rewrite run_subscriptions, run_unsubscriptions.
    cbn [error_listeners set_error_listeners new_WebSocketService].
    replace (0 + k - k)%nat with 0%nat by lia.
    eexists. split; [reflexivity|].
    repeat split; try done.
    intros a Ha. by apply quiescent.
Qed.

Lemma rejected_address_retries_then_stops_witness :
  let w0 := new_WebSocketService (mkOptions "ws:/bad" (Some 2) (Some 100)) true in
  (0 < 2)%nat ∧ 100 ≠ 0 ∧
  (∃ w, run (replicate 1 Call_on_error ++ Call_connect :: expiries 2 1) w0 = Some w ∧
        sockets w = [] ∧ ws w = None ∧ reconnectCount w = 2 ∧ timers w = [] ∧
        emitted w = replicate 3 ConstructorFailed ++ [ReconnectExhausted] ∧
        ∀ a, is_event a = true → step a w = None) ∧
  (∃ w, run (replicate 0 Call_on_error ++ replicate 0 Call_off_error ++ [Call_connect]) w0
        = Some w ∧
        emit_throws "error" w = true ∧
        sockets w = [] ∧ ws w = None ∧ reconnectCount w = 0 ∧
        timers w = [] ∧ reconnectTimeoutId w = None ∧
        emitted w = [ConstructorFailed] ∧
        ∀ a, is_event a = true → step a w = None).
Proof.
  split; [lia|]. split; [discriminate|].
  exact (rejected_address_retries_then_stops 2 0 100 "ws:/bad"
           ltac:(lia) ltac:(discriminate)).
Defined.

(** ** Spending and regaining the budget *)

Lemma step_open_wired (i : nat) (s : WebSocket)
    (r : option nat) (budget delay count : Z) (tid : option nat) (u : string)
    (socks : list WebSocket) (tm : list (nat * Z)) (nt : nat) (em : list Emission)
    (thr : bool) (ls : nat) :
  socks !! i = Some s → readyState s = CONNECTING → onopen s = true →
  step (Ev_open i) (mkWorld r budget delay count tid u socks tm nt em thr ls)
  = Some (mkWorld r budget delay 0 tid u
            (<[i := set_readyState OPEN s]> socks) tm nt
            (em ++ [mkEmission "connected" NoArg]) thr ls).
Proof.
  intros Hs Hr Ho. unfold step. simpl. rewrite Hs, Hr. simpl.
  unfold update_socket. simpl. by rewrite Ho.
Qed.

Lemma insert_last {A} (l : list A) (x y : A) :
  <[length l := y]> (l ++ [x]) = l ++ [y].
Proof.
  rewrite insert_app_r_alt by lia. by rewrite Nat.sub_diag.
Qed.

(** X6.  Only a completed handshake gives the budget back.  Once the
    counter has reached the budget, an explicit [connect()] still opens a
    socket, but if that socket fails the failure is final again: one more
    exhaustion error, no retry, the counter unchanged.  If instead the
    socket opens, the counter is back at 0 whatever it was, and a later close
    is retried. *)
Theorem budget_restored_only_by_open (w : World) :
  ws_is_open w = false → ctor_throws w = false →
  let n := length (sockets w) in
  ((reconnectAttempts w ≤ reconnectCount w)%Z →
     ∃ w', run [Call_connect; Ev_close n] w = Some w' ∧
           timers w' = timers w ∧
           reconnectCount w' = reconnectCount w ∧
           emitted w' = emitted w ++ [mkEmission "disconnected" NoArg; ReconnectExhausted]) ∧
  (0 < reconnectAttempts w →
     ∃ w', run [Call_connect; Ev_open n; Ev_close n] w = Some w' ∧
           reconnectCount w' = 0 ∧
           timers w' = timers w ++ [(next_timer w, reconnectInterval w)] ∧
           emitted w' = emitted w ++ [mkEmission "connected" NoArg;
                                      mkEmission "disconnected" NoArg]).
Proof.
  intros Ho Hc. cbv zeta.
  pose proof (connect_fresh w Ho Hc) as Hconn.
  destruct w as [r b d c tid u socks tm nt em thr ls].
  change (connect (mkWorld r b d c tid u socks tm nt em thr ls)
          = mkWorld (Some (length socks)) b d c tid u
              (socks ++ [install_listeners (new_WebSocket u)]) tm nt em thr ls) in Hconn.
  cbn [sockets reconnectAttempts reconnectCount reconnectInterval timers next_timer emitted].
  split.
  - intros Hle. unfold run.
    change (step Call_connect (mkWorld r b d c tid u socks tm nt em thr ls))
      with (Some (connect (mkWorld r b d c tid u socks tm nt em thr ls))).
    cbv beta iota. rewrite Hconn.
    rewrite (step_close_at_budget (length socks) (install_listeners (new_WebSocket u)))
      by (done || by apply list_lookup_middle).
    eexists. split; [reflexivity|]. done.
  - intros Hpos. unfold run.
    change (step Call_connect (mkWorld r b d c tid u socks tm nt em thr ls))
      with (Some (connect (mkWorld r b d c tid u socks tm nt em thr ls))).
    cbv beta iota. rewrite Hconn.
    rewrite (step_open_wired (length socks) (install_listeners (new_WebSocket u)))
      by (done || by apply list_lookup_middle).
    rewrite insert_last.
    rewrite (step_close_below_budget (length socks)
               (set_readyState OPEN (install_listeners (new_WebSocket u))))
      by (done || by apply list_lookup_middle).
    eexists. split; [reflexivity|]. simpl.
    split; [done|]. split; [done|]. by rewrite <- app_assoc.
Qed.

Lemma budget_restored_only_by_open_witness :
  let w := default wsService
             (run (Call_connect :: failures 5 0 ++ [Ev_close 5%nat]) wsService) in
  ws_is_open w = false ∧ ctor_throws w = false ∧
  (reconnectAttempts w ≤ reconnectCount w)%Z ∧ 0 < reconnectAttempts w ∧
  (∃ w', run [Call_connect; Ev_close 6%nat] w = Some w' ∧
         timers w' = timers w ∧ reconnectCount w' = reconnectCount w ∧
         emitted w' = emitted w ++ [mkEmission "disconnected" NoArg; ReconnectExhausted]) ∧
  (∃ w', run [Call_connect; Ev_open 6%nat; Ev_close 6%nat] w = Some w' ∧
         reconnectCount w' = 0 ∧
         timers w' = timers w ++ [(next_timer w, reconnectInterval w)] ∧
         emitted w' = emitted w ++ [mkEmission "connected" NoArg;
                                    mkEmission "disconnected" NoArg]).
Proof.
  split; [vm_compute; reflexivity|]. split; [vm_compute; reflexivity|].
  split; [vm_compute; discriminate|]. split; [vm_compute; reflexivity|].
  pose proof (budget_restored_only_by_open
                (default wsService
                   (run (Call_connect :: failures 5 0 ++ [Ev_close 5%nat]) wsService))
                ltac:(vm_compute; reflexivity) ltac:(vm_compute; reflexivity)) as [H1 H2].
  split.
  - apply H1. vm_compute. discriminate.
  - apply H2. vm_compute. reflexivity.
Defined.

(** ** Calling connect during a handshake *)

(** X7.  [connect()] looks at the referenced socket only to see whether it
    is open.  Called while that socket is still connecting (as the
    [visibilitychange] listener of [main.tsx] does when the page becomes
    visible again), it opens another socket and references that one; the
    earlier socket is neither closed nor stripped of its callbacks, so one
    more socket is live, and when the earlier handshake completes its open
    callback still emits [connected].  While the page is hidden, or the
    channel is open, the listener changes nothing. *)
Theorem connect_abandons_connecting_socket (w : World) (i : nat) (s : WebSocket) :
  ws w = Some i → sockets w !! i = Some s → readyState s = CONNECTING →
  ctor_throws w = false →
  let w' := on_visibilitychange true w in
  sockets w' !! i = Some s ∧
  ws w' = Some (length (sockets w)) ∧ length (sockets w) ≠ i ∧
  live_sockets w' = S (live_sockets w) ∧
  on_visibilitychange false w = w ∧
  (onopen s = true →
     ∃ w'', step (Ev_open i) w' = Some w'' ∧
            emitted w'' = emitted w ++ [mkEmission "connected" NoArg] ∧
            ws w'' = Some (length (sockets w)) ∧
            live_sockets w'' = S (live_sockets w)).
Proof.
  intros Hws Hs Hr Hc. cbv zeta. unfold on_visibilitychange.
  assert (ws_is_open w = false) as Ho by (unfold ws_is_open; by rewrite Hws, Hs, Hr).
  rewrite (connect_fresh w Ho Hc).
  pose proof (lookup_lt_Some _ _ _ Hs) as Hlt.
  assert (live_sockets
            (set_ws (Some (length (sockets w)))
               (set_sockets (sockets w ++ [install_listeners (new_WebSocket (url w))]) w))
          = S (live_sockets w)) as Hlive.
  { unfold live_sockets. simpl. rewrite filter_app, length_app. simpl. lia. }
  split; [simpl; by rewrite lookup_app_l|].
  split; [done|]. split; [lia|]. split; [exact Hlive|]. split; [done|].
  intros Hopen. unfold step. simpl sockets.
  rewrite lookup_app_l by done. rewrite Hs, Hr. simpl ReadyState_eqb. cbv iota.
  rewrite Hopen. unfold fire.
  eexists. split; [reflexivity|]. split; [done|]. split; [done|].
  set (w1 := set_ws _ _) in *.
  pose proof (live_sockets_update w1 i s (set_readyState OPEN s)) as Hupd.
  assert (sockets w1 !! i = Some s) as Hs1 by (subst w1; simpl; by rewrite lookup_app_l).
  specialize (Hupd Hs1).
  unfold live in Hupd at 1 2. rewrite Hr in Hupd. simpl in Hupd.
  unfold on_open, live_sockets in *. simpl in *. lia.
Qed.

Lemma connect_abandons_connecting_socket_witness :
  let w := connect wsService in
  ws w = Some 0%nat ∧ ctor_throws w = false ∧
  ws (on_visibilitychange true w) = Some 1%nat ∧
  live_sockets (on_visibilitychange true w) = 2%nat.
Proof.
  split; [reflexivity|]. split; [reflexivity|].
  pose proof (connect_abandons_connecting_socket (connect wsService) 0
                (install_listeners (new_WebSocket "ws://localhost:8000/ws"))
                eq_refl eq_refl eq_refl eq_refl) as (_ & H2 & _ & H4 & _).
  exact (conj H2 H4).
Defined.

(** ** Sequences of sends *)

Lemma update_socket_twice (i : nat) (s1 s2 : WebSocket) (w : World) :
  update_socket i s2 (update_socket i s1 w) = update_socket i s2 w.
Proof.
  unfold update_socket, set_sockets. simpl. by rewrite list_insert_insert_eq.
Qed.

Lemma update_socket_same (i : nat) (s : WebSocket) (w : World) :
  sockets w !! i = Some s → update_socket i s w = w.
Proof.
  intros Hs. destruct w. unfold update_socket, set_sockets. simpl in *.
  by rewrite list_insert_id.
Qed.

Lemma send_all_open (ms : list WebSocketMessage) (w : World) (i : nat) (s : WebSocket) :
  ws w = Some i → sockets w !! i = Some s → readyState s = OPEN →
  send_all ms w = update_socket i (append_frames (map JSON_stringify ms) s) w.
Proof.
  revert w s. induction ms as [|m ms IH]; intros w s Hws Hs Hr.
  - simpl. unfold append_frames. rewrite app_nil_r.
    destruct s. simpl. by rewrite update_socket_same.
  - change (send_all (m :: ms) w) with (send_all ms (send (type m) (payload m) w)).
    assert (ws_is_open w = true) as Ho by (apply ws_is_open_spec; eauto).
    destruct (send_when_open (type m) (payload m) w Ho) as (i' & s' & Hws' & Hs' & _ & ->).
    rewrite Hws in Hws'. injection Hws' as <-. rewrite Hs in Hs'. injection Hs' as <-.
    rewrite (IH _ (push_frame (JSON_stringify (mkMessage (type m) (payload m))) s)).
    + rewrite update_socket_twice. f_equal.
      unfold append_frames, push_frame. simpl. rewrite <- app_assoc.
      by destruct m.
    + done.
    + simpl. apply list_lookup_insert_eq. by eapply lookup_lt_Some.
    + done.
Qed.

Lemma send_all_closed (ms : list WebSocketMessage) (w : World) :
  ws_is_open w = false →
  send_all ms w = set_emitted (emitted w ++ replicate (length ms) SendWhileClosed) w.
Proof.
  revert w. induction ms as [|m ms IH]; intros w Ho.
  - simpl. rewrite app_nil_r. by destruct w.
  - change (send_all (m :: ms) w) with (send_all ms (send (type m) (payload m) w)).
    rewrite (send_when_closed _ _ w Ho).
    rewrite IH by done. unfold set_emitted. simpl. by rewrite <- app_assoc.
Qed.

(** X8.  Sends keep their order and are never merged, delayed or dropped
    one by one: on an open channel a sequence of [send] calls (the
    convenience senders are such calls) appends exactly its frames, in call
    order, to the referenced socket and emits nothing; on a channel that is
    not open the same sequence writes nothing and emits one error per
    call. *)
Theorem sends_keep_their_order (ms : list WebSocketMessage) (w : World) :
  (∀ i s, ws w = Some i → sockets w !! i = Some s → readyState s = OPEN →
     send_all ms w = update_socket i (append_frames (map JSON_stringify ms) s) w ∧
     emitted (send_all ms w) = emitted w) ∧
  (ws_is_open w = false →
     send_all ms w = set_emitted (emitted w ++ replicate (length ms) SendWhileClosed) w ∧
     sockets (send_all ms w) = sockets w) ∧
  (∀ prId comment suggestionId,
     requestAnalysis prId
       (markSuggestionStatus suggestionId true
          (sendComment prId comment None
             (unsubscribeFromPR prId (subscribeToPR prId w))))
     = send_all
         [mkMessage "subscribe_pr" (JObj [("prId", JNum prId)]);
          mkMessage "unsubscribe_pr" (JObj [("prId", JNum prId)]);
          mkMessage "new_comment"
            (JObj [("prId", JNum prId); ("comment", JStr comment);
                   ("lineNumber", JUndefined)]);
          mkMessage "suggestion_status"
            (JObj [("suggestionId", JStr suggestionId); ("status", JStr "accepted")]);
          mkMessage "request_analysis" (JObj [("prId", JNum prId)])] w).
Proof.
  split; [|split].
  - intros i s Hws Hs Hr. rewrite (send_all_open ms w i s Hws Hs Hr). done.
  - intros Ho. rewrite (send_all_closed ms w Ho). done.
  - done.
Qed.

Lemma sends_keep_their_order_witness :
  let ms := [mkMessage "subscribe_pr" (JObj [("prId", JNum 3)]);
             mkMessage "request_analysis" (JObj [("prId", JNum 3)])] in
  ws_is_open wsService = false ∧
  send_all ms wsService
    = set_emitted (emitted wsService ++ replicate 2 SendWhileClosed) wsService ∧
  ws wsService_open = Some 0%nat ∧
  option_map sent (sockets (send_all ms wsService_open) !! 0%nat)
    = Some (map JSON_stringify ms).
Proof.
  split; [reflexivity|]. split.
  - exact (proj1 (proj1 (proj2 (sends_keep_their_order
             [mkMessage "subscribe_pr" (JObj [("prId", JNum 3)]);
              mkMessage "request_analysis" (JObj [("prId", JNum 3)])] wsService))
             eq_refl)).
  - split; [reflexivity|].
    rewrite (proj1 (proj1 (sends_keep_their_order
               [mkMessage "subscribe_pr" (JObj [("prId", JNum 3)]);
                mkMessage "request_analysis" (JObj [("prId", JNum 3)])] wsService_open)
               0%nat (set_readyState OPEN
                        (install_listeners (new_WebSocket "ws://localhost:8000/ws")))
               eq_refl eq_refl eq_refl)).
    reflexivity.
Defined.

(** ** What subscribers see of the connection *)

Lemma count_emitted_app (name : string) (l k : list Emission) :
  count_emitted name (l ++ k) = (count_emitted name l + count_emitted name k)%nat.
Proof. unfold count_emitted. by rewrite filter_app, length_app. Qed.

Lemma count_emitted_errors (name : string) (l : list Emission) :
  name ≠ "error" → Forall (λ e, ev_name e = "error") l → count_emitted name l = 0%nat.
Proof.
  intros Hn Hl. unfold count_emitted.
  induction Hl as [|e l He Hl IH]; [done|].
  rewrite filter_cons. rewrite decide_False by congruence. exact IH.
Qed.

Lemma attemptReconnect_emits (w : World) :
  ∃ l, emitted (attemptReconnect w) = emitted w ++ l ∧
       Forall (λ e, ev_name e = "error") l.
Proof.
  unfold attemptReconnect. destruct (Z.ltb _ _).
  - exists []. simpl. by rewrite app_nil_r.
  - exists [ReconnectExhausted]. split; [done|]. by apply Forall_singleton.
Qed.

Lemma connect_emits (w : World) :
  ∃ l, emitted (connect w) = emitted w ++ l ∧ Forall (λ e, ev_name e = "error") l.
Proof.
  destruct (ws_is_open w) eqn:Ho.
  - rewrite connect_open by done. exists []. by rewrite app_nil_r.
  - destruct (ctor_throws w) eqn:Hc.
    + destruct (connect_throws_cases w Ho Hc) as [-> | ->].
      * destruct (attemptReconnect_emits (emit "error" (ErrArg ConstructorException) w))
          as (l & -> & Hl).
        exists (ConstructorFailed :: l). simpl. rewrite <- app_assoc.
        split; [done|]. by constructor.
      * exists [ConstructorFailed]. split; [done|]. by apply Forall_singleton.
    + rewrite connect_fresh by done. exists []. simpl. by rewrite app_nil_r.
Qed.

Lemma on_message_emits (event : MessageEvent) (w : World) :
  ∃ e, emitted (on_message event w) = emitted w ++ [e] ∧
       ev_name e ≠ "connected" ∧ ev_name e ≠ "disconnected".
Proof.
  unfold on_message, handleMessage.
  destruct (data_parsed event) as [m|]; [|by eexists].
  destruct (get_prop m "type") as [t|]; [|by eexists].
  repeat (match goal with |- context [if ?b then _ else _] => destruct b end);
    by eexists.
Qed.

(** What one turn of the loop adds to the emissions, as far as the two
    connection events go. *)
Lemma step_emits (a : Action) (w w' : World) :
  wired w → step a w = Some w' →
  ∃ l, emitted w' = emitted w ++ l ∧
       count_emitted "connected" l = Nat.b2n (is_open_event a) ∧
       count_emitted "disconnected" l = Nat.b2n (is_close_event a).
Proof.
  intros Hw Hstep. destruct a; simpl in Hstep.
  - injection Hstep as <-. destruct (connect_emits w) as (l & -> & Hl).
    exists l. by rewrite !count_emitted_errors.
  - injection Hstep as <-. exists []. rewrite app_nil_r.
    split; [apply disconnect_effects|done].
  - injection Hstep as <-. destruct (ws_is_open w) eqn:Ho.
    + destruct (send_when_open ty p w Ho) as (i & s & _ & _ & _ & ->).
      exists []. by rewrite app_nil_r.
    + rewrite send_when_closed by done. by exists [SendWhileClosed].
  - injection Hstep as <-. exists []. by rewrite app_nil_r.
  - injection Hstep as <-. exists []. by rewrite app_nil_r.
  - destruct (sockets w !! sock) as [s|] eqn:Hs; [|done].
    destruct (ReadyState_eqb _ _); [|done]. injection Hstep as <-.
    destruct (Forall_lookup_1 _ _ _ _ Hw Hs) as (_ & -> & _).
    by exists [mkEmission "connected" NoArg].
  - destruct (sockets w !! sock) as [s|] eqn:Hs; [|done].
    destruct (live s); [|done]. injection Hstep as <-.
    destruct (Forall_lookup_1 _ _ _ _ Hw Hs) as (_ & _ & -> & _).
    unfold fire, on_close.
    destruct (attemptReconnect_emits
                (emit "disconnected" NoArg
                   (update_socket sock (set_readyState CLOSED s) w))) as (l & -> & Hl).
    exists (mkEmission "disconnected" NoArg :: l). simpl emitted.
    rewrite <- app_assoc. split; [done|].
    change (mkEmission "disconnected" NoArg :: l)
      with ([mkEmission "disconnected" NoArg] ++ l).
    rewrite !count_emitted_app, !(count_emitted_errors _ l) by done. done.
  - destruct (sockets w !! sock) as [s|] eqn:Hs; [|done].
    destruct (live s); [|done]. injection Hstep as <-.
    destruct (Forall_lookup_1 _ _ _ _ Hw Hs) as (_ & _ & _ & -> & _).
    by exists [mkEmission "error" (ErrArg (TransportError sock))].
  - destruct (sockets w !! sock) as [s|] eqn:Hs; [|done].
    destruct (ReadyState_eqb _ _); [|done]. injection Hstep as <-.
    destruct (Forall_lookup_1 _ _ _ _ Hw Hs) as (_ & _ & _ & _ & ->).
    unfold fire. destruct (on_message_emits event w) as (e & -> & H1 & H2).
    exists [e]. split; [done|]. unfold count_emitted.
    rewrite !filter_cons, !decide_False by done. done.
  - destruct (pending h w); [|done]. injection Hstep as <-.
    unfold retry_callback.
    destruct (connect_emits (set_reconnectCount (reconnectCount (clearTimeout h w) + 1)
                               (clearTimeout h w))) as (l & He & Hl).
    exists l. split; [exact He|]. by rewrite !count_emitted_errors.
Qed.

(** X9.  Subscribers are told of every transition of every socket, once:
    over any run of a new service, [connected] has been emitted exactly as
    often as a socket opened and [disconnected] exactly as often as a socket
    closed.  In particular [disconnect()] emits nothing itself; the
    [disconnected] event follows with the close event of the socket. *)
Theorem connection_events_match_transitions (options : WebSocketServiceOptions)
    (throws : bool) (acts : list Action) (w : World) :
  run acts (new_WebSocketService options throws) = Some w →
  count_emitted "connected" (emitted w) = count_actions is_open_event acts ∧
  count_emitted "disconnected" (emitted w) = count_actions is_close_event acts.
Proof.
  assert (∀ acts w0 w, wired w0 → run acts w0 = Some w →
            count_emitted "connected" (emitted w)
            = (count_emitted "connected" (emitted w0) + count_actions is_open_event acts)%nat ∧
            count_emitted "disconnected" (emitted w)
            = (count_emitted "disconnected" (emitted w0)
               + count_actions is_close_event acts)%nat) as Hgen.
  { clear. intros acts. induction acts as [|a acts IH]; intros w0 w Hw Hrun; simpl in Hrun.
    - injection Hrun as <-. unfold count_actions. simpl. lia.
    - destruct (step a w0) as [w1|] eqn:Hs; [|done].
      destruct (step_emits a w0 w1 Hw Hs) as (l & He & Hc & Hd).
      destruct (IH w1 w (wired_step a w0 w1 Hs Hw) Hrun) as [-> ->].
      rewrite He, !count_emitted_app, Hc, Hd.
      unfold count_actions. rewrite !filter_cons.
      destruct a; simpl; repeat case_decide; simpl; try done; lia. }
  intros Hrun.
  assert (wired (new_WebSocketService options throws)) as Hw by apply Forall_nil_2.
  destruct (Hgen acts _ w Hw Hrun) as [-> ->]. done.
Qed.

Lemma connection_events_match_transitions_witness :
  let acts := [Call_connect; Ev_open 0%nat; Call_disconnect; Ev_close 0%nat;
               Ev_timeout 1%nat; Ev_open 1%nat] in
  let w := default wsService (run acts wsService) in
  run acts wsService = Some w ∧
  count_emitted "connected" (emitted w) = 2%nat ∧
  count_emitted "disconnected" (emitted w) = 1%nat.
Proof.
  assert (run [Call_connect; Ev_open 0%nat; Call_disconnect; Ev_close 0%nat;
               Ev_timeout 1%nat; Ev_open 1%nat] wsService
          = Some (default wsService
                    (run [Call_connect; Ev_open 0%nat; Call_disconnect; Ev_close 0%nat;
                          Ev_timeout 1%nat; Ev_open 1%nat] wsService))) as Hrun
    by (vm_compute; reflexivity).
  split; [exact Hrun|].
  exact (connection_events_match_transitions
           (mkOptions "ws://localhost:8000/ws" None None) false _ _ Hrun).
Defined.

(** ** Who writes to the sockets *)

Lemma sum_insert {A} (f : A → nat) (l : list A) (i : nat) (x y : A) :
  l !! i = Some x →
  (sum_list_with f (<[i := y]> l) + f x = sum_list_with f l + f y)%nat.
Proof.
  revert i. induction l as [|z l IH]; intros [|i] H; try done; simpl in *.
  - injection H as ->. lia.
  - specialize (IH i H). lia.
Qed.

Lemma sum_alter_same {A} (f : A → nat) (g : A → A) (l : list A) (i : nat) :
  (∀ x, f (g x) = f x) → sum_list_with f (alter g i l) = sum_list_with f l.
Proof.
  intros Hg. revert i. induction l as [|z l IH]; intros [|i]; simpl; try done.
  - by rewrite Hg.
  - f_equal. apply IH.
Qed.

Lemma frames_frame (w w' : World) :
  sockets w' = sockets w → frames_written w' = frames_written w.
Proof. unfold frames_written. by intros ->. Qed.

Lemma frames_update_state (i : nat) (r : ReadyState) (s : WebSocket) (w : World) :
  sockets w !! i = Some s →
  frames_written (update_socket i (set_readyState r s) w) = frames_written w.
Proof.
  intros Hs. unfold frames_written. simpl.
  pose proof (sum_insert (λ s, length (sent s)) (sockets w) i s (set_readyState r s) Hs) as H.
  simpl in H. lia.
Qed.

Lemma frames_attemptReconnect (w : World) :
  frames_written (attemptReconnect w) = frames_written w.
Proof. apply frames_frame. unfold attemptReconnect. by destruct (Z.ltb _ _). Qed.

Lemma frames_connect (w : World) : frames_written (connect w) = frames_written w.
Proof.
  destruct (ws_is_open w) eqn:Ho; [by rewrite connect_open|].
  destruct (ctor_throws w) eqn:Hc.
  - destruct (connect_throws_cases w Ho Hc) as [-> | ->]; [|done].
    by rewrite frames_attemptReconnect.
  - rewrite connect_fresh by done. unfold frames_written. simpl.
    rewrite sum_list_with_app. simpl. lia.
Qed.

Lemma frames_disconnect (w : World) : frames_written (disconnect w) = frames_written w.
Proof.
  unfold disconnect.
  set (w1 := match reconnectTimeoutId w with
             | Some h => clearTimeout h w
             | None => w
             end).
  assert (frames_written w1 = frames_written w) as <-
    by (subst w1; by destruct (reconnectTimeoutId w)).
  destruct (ws w1) as [i|]; [|done].
  unfold frames_written. simpl. apply sum_alter_same.
  intros s. unfold ws_close. by destruct (readyState s).
Qed.

Lemma frames_send (ty : string) (p : JSValue) (w : World) :
  frames_written (send ty p w)
  = (frames_written w + Nat.b2n (ws_is_open w))%nat.
Proof.
  destruct (ws_is_open w) eqn:Ho.
  - destruct (send_when_open ty p w Ho) as (i & s & _ & Hs & _ & ->).
    unfold frames_written. simpl.
    pose proof (sum_insert (λ s, length (sent s)) (sockets w) i s
                  (push_frame (JSON_stringify (mkMessage ty p)) s) Hs) as H.
    simpl in H. rewrite length_app in H. simpl in H. lia.
  - rewrite send_when_closed by done. simpl. unfold frames_written. simpl. lia.
Qed.

Lemma frames_step (a : Action) (w w' : World) :
  step a w = Some w' →
  frames_written w' = (frames_written w + Nat.b2n (is_send a && ws_is_open w))%nat.
Proof.
  intros Hstep. destruct a; simpl in Hstep; simpl is_send; cbn [andb Nat.b2n].
  - injection Hstep as <-. rewrite frames_connect. lia.
  - injection Hstep as <-. rewrite frames_disconnect. lia.
  - injection Hstep as <-. apply frames_send.
  - injection Hstep as <-. unfold frames_written. simpl. lia.
  - injection Hstep as <-. unfold frames_written. simpl. lia.
  - destruct (sockets w !! sock) as [s|] eqn:Hs; [|done].
    destruct (ReadyState_eqb _ _); [|done]. injection Hstep as <-.
    pose proof (frames_update_state sock OPEN s w Hs) as H.
    unfold fire. destruct (onopen s); [|lia].
    unfold on_open, frames_written in *. simpl in *. lia.
  - destruct (sockets w !! sock) as [s|] eqn:Hs; [|done].
    destruct (live s); [|done]. injection Hstep as <-.
    pose proof (frames_update_state sock CLOSED s w Hs) as H.
    unfold fire. destruct (onclose s); [|lia].
    unfold on_close. rewrite frames_attemptReconnect.
    unfold frames_written in *. simpl in *. lia.
  - destruct (sockets w !! sock) as [s|] eqn:Hs; [|done].
    destruct (live s); [|done]. injection Hstep as <-.
    unfold fire. destruct (onerror s); [|lia].
    unfold on_error, frames_written. simpl. lia.
  - destruct (sockets w !! sock) as [s|] eqn:Hs; [|done].
    destruct (ReadyState_eqb _ _); [|done]. injection Hstep as <-.
    unfold fire. destruct (onmessage s); [|lia].
    rewrite (frames_frame w (on_message event w)); [lia|].
    apply same_but_log_sockets, on_message_same.
  - destruct (pending h w); [|done]. injection Hstep as <-.
    unfold retry_callback. rewrite frames_connect.
    unfold frames_written. simpl. lia.
Qed.

Lemma no_frames (l : list WebSocket) :
  sum_list_with (λ s, length (sent s)) l = 0%nat → Forall (λ s, sent s = []) l.
Proof.
  induction l as [|s l IH]; intros H; [done|]. simpl in H.
  constructor; [apply nil_length_inv; lia|apply IH; lia].
Qed.

(** X10.  The service writes only when told to.  Over any run the number of
    frames on all sockets grows by at most one per [send] call and by
    nothing else: no callback, no retry, no [connect()] and no
    [disconnect()] writes a frame.  So a run of a new service without
    [send] calls leaves every socket without a frame; in particular nothing
    is sent again after a reconnection. *)
Theorem writes_only_on_send (acts : list Action) (w0 w : World) :
  run acts w0 = Some w →
  (frames_written w0 ≤ frames_written w)%nat ∧
  (frames_written w ≤ frames_written w0 + count_actions is_send acts)%nat ∧
  (sockets w0 = [] → count_actions is_send acts = 0%nat →
     Forall (λ s, sent s = []) (sockets w)).
Proof.
  intros Hrun.
  assert ((frames_written w0 ≤ frames_written w)%nat ∧
          (frames_written w ≤ frames_written w0 + count_actions is_send acts)%nat)
    as [Hlo Hhi].
  { revert w0 Hrun. induction acts as [|a acts IH]; intros w0 Hrun; simpl in Hrun.
    - injection Hrun as <-. unfold count_actions. simpl. lia.
    - destruct (step a w0) as [w1|] eqn:Hs; [|done].
      pose proof (frames_step a w0 w1 Hs) as Hf.
      destruct (IH w1 Hrun) as [H1 H2].
      unfold count_actions in *. rewrite filter_cons.
      destruct (is_send a) eqn:Ha; simpl in Hf.
      + rewrite decide_True by done. simpl.
        destruct (ws_is_open w0); simpl in Hf; lia.
      + rewrite decide_False by done. lia. }
  split; [done|]. split; [done|].
  intros Hnil Hno. apply no_frames.
  unfold frames_written in *. rewrite Hnil in *. simpl in *. lia.
Qed.

Lemma writes_only_on_send_witness :
  let acts := [Call_connect; Ev_open 0%nat; Ev_close 0%nat; Ev_timeout 1%nat;
               Ev_open 1%nat] in
  let w := default wsService (run acts wsService) in
  run acts wsService = Some w ∧ sockets wsService = [] ∧
  count_actions is_send acts = 0%nat ∧
  Forall (λ s, sent s = []) (sockets w).
Proof.
  assert (run [Call_connect; Ev_open 0%nat; Ev_close 0%nat; Ev_timeout 1%nat;
               Ev_open 1%nat] wsService
          = Some (default wsService
                    (run [Call_connect; Ev_open 0%nat; Ev_close 0%nat; Ev_timeout 1%nat;
                          Ev_open 1%nat] wsService))) as Hrun
    by (vm_compute; reflexivity).
  split; [exact Hrun|]. split; [reflexivity|]. split; [reflexivity|].
  exact (proj2 (proj2 (writes_only_on_send _ _ _ Hrun)) eq_refl eq_refl).
Defined.

(** ** After disconnect, and transport errors *)

Lemma ws_attemptReconnect (w : World) : ws (attemptReconnect w) = ws w.
Proof. unfold attemptReconnect. by destruct (Z.ltb _ _). Qed.

(** Only [connect()] makes the service reference a socket. *)
Lemma step_keeps_released (a : Action) (w w' : World) :
  runs_connect a = false → step a w = Some w' → ws w = None → ws w' = None.
Proof.
  intros Ha Hstep Hws. destruct a; try done; simpl in Hstep.
  - injection Hstep as <-. apply disconnect_effects.
  - injection Hstep as <-.
    assert (ws_is_open w = false) as Ho by (unfold ws_is_open; by rewrite Hws).
    by rewrite send_when_closed.
  - by injection Hstep as <-.
  - by injection Hstep as <-.
  - destruct (sockets w !! sock) as [s|]; [|done].
    destruct (ReadyState_eqb _ _); [|done]. injection Hstep as <-.
    unfold fire. by destruct (onopen s).
  - destruct (sockets w !! sock) as [s|]; [|done].
    destruct (live s); [|done]. injection Hstep as <-.
    unfold fire. destruct (onclose s); [|done].
    unfold on_close. by rewrite ws_attemptReconnect.
  - destruct (sockets w !! sock) as [s|]; [|done].
    destruct (live s); [|done]. injection Hstep as <-.
    unfold fire. by destruct (onerror s).
  - destruct (sockets w !! sock) as [s|]; [|done].
    destruct (ReadyState_eqb _ _); [|done]. injection Hstep as <-.
    unfold fire. destruct (onmessage s); [|done].
    pose proof (on_message_same event w) as Hsame.
    injection Hsame as -> _. done.
Qed.

Lemma run_keeps_released (acts : list Action) (w w' : World) :
  Forall (λ a, runs_connect a = false) acts →
  run acts w = Some w' → ws w = None → ws w' = None.
Proof.
  intros Hacts. revert w. induction Hacts as [|a acts Ha Hacts IH]; intros w Hrun Hws;
    simpl in Hrun.
  - by injection Hrun as <-.
  - destruct (step a w) as [w1|] eqn:Hs; [|done].
    apply (IH w1 Hrun). by eapply step_keeps_released.
Qed.

(** X11.  [disconnect()] releases the socket at once, before the socket has
    finished closing, and the service references no socket again until
    [connect()] runs: by a call, or by the expiry of a retry timer.  Until
    then, whatever else is called and whatever the sockets do, the channel
    reads as disconnected, every [send] fails with one error and writes
    nothing, and a [connect()] finds no open socket, so (the constructor
    accepting the address) it opens a new one and the channel is connecting
    again. *)
Theorem after_disconnect (w w' : World) (acts : list Action) (ty : string) (p : JSValue) :
  Forall (λ a, runs_connect a = false) acts →
  run acts (disconnect w) = Some w' →
  ws w' = None ∧ channel_state w' = Disconnected ∧
  emitted (send ty p w') = emitted w' ++ [SendWhileClosed] ∧
  sockets (send ty p w') = sockets w' ∧
  (ctor_throws w' = false →
     length (sockets (connect w')) = S (length (sockets w')) ∧
     ws (connect w') = Some (length (sockets w')) ∧
     channel_state (connect w') = Connecting).
Proof.
  intros Hacts Hrun.
  assert (ws w' = None) as Hws.
  { apply (run_keeps_released acts (disconnect w) w' Hacts Hrun).
    apply disconnect_effects. }
  assert (ws_is_open w' = false) as Ho by (unfold ws_is_open; by rewrite Hws).
  split; [done|]. split; [unfold channel_state; by rewrite Hws|].
  rewrite (send_when_closed ty p _ Ho). simpl.
  split; [done|]. split; [done|]. intros Hc.
  rewrite (connect_fresh _ Ho Hc). simpl.
  rewrite length_app. simpl.
  split; [lia|]. split; [done|].
  unfold channel_state. simpl.
  by rewrite list_lookup_middle.
Qed.

Lemma after_disconnect_witness :
  let acts := [Call_send "subscribe_pr" JNull; Ev_error 0%nat; Ev_close 0%nat;
               Call_disconnect] in
  let w' := default wsService (run acts (disconnect wsService_open)) in
  Forall (λ a, runs_connect a = false) acts ∧
  run acts (disconnect wsService_open) = Some w' ∧
  pending_timers w' = 0%nat ∧
  ws w' = None ∧
  emitted (send "subscribe_pr" JNull w') = emitted w' ++ [SendWhileClosed] ∧
  ctor_throws w' = false ∧
  channel_state (connect w') = Connecting.
Proof.
  assert (Forall (λ a, runs_connect a = false)
            [Call_send "subscribe_pr" JNull; Ev_error 0%nat; Ev_close 0%nat;
             Call_disconnect]) as Hacts
    by (repeat constructor).
  assert (run [Call_send "subscribe_pr" JNull; Ev_error 0%nat; Ev_close 0%nat;
               Call_disconnect] (disconnect wsService_open)
          = Some (default wsService
                    (run [Call_send "subscribe_pr" JNull; Ev_error 0%nat; Ev_close 0%nat;
                          Call_disconnect] (disconnect wsService_open)))) as Hrun
    by (vm_compute; reflexivity).
  pose proof (after_disconnect wsService_open _ _ "subscribe_pr" JNull Hacts Hrun)
    as (H1 & _ & H3 & _ & H5).
  split; [exact Hacts|]. split; [exact Hrun|]. split; [vm_compute; reflexivity|].
  split; [exact H1|]. split; [exact H3|]. split; [vm_compute; reflexivity|].
  exact (proj2 (proj2 (H5 ltac:(vm_compute; reflexivity)))).
Defined.

(** X12.  A transport error is reported and nothing more: in every
    reachable world the error event of a live socket adds one [error]
    emission carrying that event and leaves every field, socket and timer
    as it was; no retry is scheduled until the socket's close event
    arrives. *)
Theorem transport_error_only_reports (w w' : World) (i : nat) :
  reachable w → step (Ev_error i) w = Some w' →
  w' = set_emitted (emitted w ++ [mkEmission "error" (ErrArg (TransportError i))]) w ∧
  timers w' = timers w ∧ sockets w' = sockets w ∧
  reconnectCount w' = reconnectCount w.
Proof.
  intros Hr Hstep. simpl in Hstep.
  destruct (sockets w !! i) as [s|] eqn:Hs; [|done].
  destruct (live s); [|done]. injection Hstep as <-.
  destruct (Forall_lookup_1 _ _ _ _ (reachable_wired w Hr) Hs) as (_ & _ & _ & -> & _).
  done.
Qed.

Lemma transport_error_only_reports_witness :
  reachable (connect wsService) ∧
  timers (set_emitted (emitted (connect wsService)
                         ++ [mkEmission "error" (ErrArg (TransportError 0))])
            (connect wsService)) = [].
Proof.
  assert (reachable (connect wsService)) as Hr.
  { apply (reach_step Call_connect wsService); [apply reach_new|reflexivity]. }
  split; [exact Hr|].
  pose proof (transport_error_only_reports (connect wsService) _ 0 Hr eq_refl) as (_ & H & _).
  exact H.
Defined.
